(** * Signaling server of the many-to-many conference (cleanManyToMany.js)

    A shallow embedding of the room / peer / resource registries of
    [src/cleanManyToMany.js] and of its socket handlers, followed by the
    properties of the specification that concern them.

    Modelling conventions.
    - The five module-level variables [rooms], [peers], [transports],
      [producers] and [consumers] form the [State].  [rooms] and [peers] are
      JS objects used as maps (here [gmap string _]); the three resource
      registries are JS arrays (here lists, in insertion order).  A room
      name comes from the client: for the names that [rooms = {}] inherits
      from [Object.prototype] (see [inherited]) the test of [createRoom]
      succeeds although the room is not registered.  The keys of [peers]
      are the ids that socket.io generates for its connections, and the
      room names read back from a peer record are names that [createRoom]
      accepted; they are taken not to be inherited names.
    - A handler is a computation in a state-and-exception monad.  A JS
      exception that no [try]/[catch] intercepts ends the handler in
      [Throw st], where [st] holds every assignment made before the throw.
    - What a handler sends out ([callback(..)], [socket.emit(..)]), and the
      calls it makes on engine handles and on the recorder, are appended to
      the [trace] of the state.
    - The answers of the media engine and of the recorder are arguments of
      the handlers: [Some x] when the awaited promise resolves with [x],
      [None] when it rejects.
    - A handler is given twice.  [on_joinRoom], [on_consume], ... are the
      handlers read from their first to their last statement, every awaited
      promise settling at once; [run] chains them and [reachable] are the
      states of such runs, in which no handler is interrupted.  [start] and
      [resume] cut the same handlers at their [await]s; [async_run]
      interleaves the parts of different handlers in any order, each
      suspended handler holding the values of its closure, and
      [async_reachable] are the states of the server under such runs.  The
      two agree on a handler that nothing interrupts
      ([handler_uninterrupted]), so every [reachable] state is
      [async_reachable] ([reachable_async]).
    - [consumer-resume], [stopRecording] and the [dtlsstatechange] listener
      assign none of the five variables and are no events of the runs; the
      first and the last are given as functions ([on_consumer_resume],
      [on_dtlsstatechange]). *)

From stdpp Require Import gmap strings list fin_maps.

Open Scope string_scope.
Open Scope list_scope.
Open Scope nat_scope.

(** ** Data model *)

Abbreviation SocketId := string (only parsing).
Abbreviation RoomName := string (only parsing).
Abbreviation Id := string (only parsing).

(** Engine handles.  A router is known by its id; its [rtpCapabilities] are
    a function of the handle. *)
Abbreviation Router := string (only parsing).

Record Transport := { t_id : Id }.
Record Producer := { p_id : Id; p_kind : string }.
Record Consumer := { c_id : Id; c_kind : string }.

(** [rooms[roomName] = { router, peers }] *)
Record Room := { r_router : Router; r_peers : list SocketId }.

(** [peers[socket.id] = { socket, roomName, transports, producers,
    consumers, peerDetails: { name, isAdmin } }] *)
Record Peer := {
  pr_socket : SocketId;
  pr_roomName : RoomName;
  pr_transports : list Id;
  pr_producers : list Id;
  pr_consumers : list Id;
  pr_name : string;
  pr_isAdmin : bool
}.

(** The records of the three registries.  [td_consumer] is the truth
    value of the [consumer] flag that the client sent. *)
Record TransportData := {
  td_socketId : SocketId;
  td_transport : Transport;
  td_roomName : RoomName;
  td_consumer : bool
}.

Record ProducerData := {
  pd_socketId : SocketId;
  pd_producer : Producer;
  pd_roomName : RoomName
}.

Record ConsumerData := {
  cd_socketId : SocketId;
  cd_consumer : Consumer;
  cd_roomName : RoomName
}.

(** Payloads handed to the [callback] of a request. *)
Inductive Response :=
| RtpCapabilities (router1 : Router)
| TransportParams (id : Id)
| ProducerList (producerList : list Id)
| Produced (id : Id) (producersExist : bool)
| ConsumeParams (id producerId : Id) (kind : string)
| ConsumeError
| Error (msg : string)
| CaughtError
| RecordingStarted (fileName : string).

(** What leaves the handlers. *)
Inductive Effect :=
| Callback (to : SocketId) (r : Response)
| Emit (to : SocketId) (event : string) (payload : Id)
| Close (type : string) (id : Id)
| Connect (transportId : Id)
| StartCombinedRecording (audio video : Producer) (roomName : RoomName)
    (by_ : SocketId)
| StopCombinedRecording (producerId : Id).

Record State := {
  rooms : gmap string Room;
  peers : gmap string Peer;
  transports : list TransportData;
  producers : list ProducerData;
  consumers : list ConsumerData;
  trace : list Effect
}.

Definition init : State :=
  {| rooms := ∅; peers := ∅; transports := []; producers := [];
     consumers := []; trace := [] |}.

Definition set_rooms (v : gmap string Room) (st : State) : State :=
  {| rooms := v; peers := peers st; transports := transports st;
     producers := producers st; consumers := consumers st;
     trace := trace st |}.

Definition set_peers (v : gmap string Peer) (st : State) : State :=
  {| rooms := rooms st; peers := v; transports := transports st;
     producers := producers st; consumers := consumers st;
     trace := trace st |}.

Definition set_transports (v : list TransportData) (st : State) : State :=
  {| rooms := rooms st; peers := peers st; transports := v;
     producers := producers st; consumers := consumers st;
     trace := trace st |}.

Definition set_producers (v : list ProducerData) (st : State) : State :=
  {| rooms := rooms st; peers := peers st; transports := transports st;
     producers := v; consumers := consumers st; trace := trace st |}.

Definition set_consumers (v : list ConsumerData) (st : State) : State :=
  {| rooms := rooms st; peers := peers st; transports := transports st;
     producers := producers st; consumers := v; trace := trace st |}.

Definition log (e : Effect) (st : State) : State :=
  {| rooms := rooms st; peers := peers st; transports := transports st;
     producers := producers st; consumers := consumers st;
     trace := trace st ++ [e] |}.

(** ** The handler monad *)

Inductive Res (A : Type) :=
| Ok (a : A) (st : State)
| Throw (st : State).
Arguments Ok {A} a st.
Arguments Throw {A} st.

Definition M (A : Type) : Type := State → Res A.

Definition ret {A} (a : A) : M A := λ st, Ok a st.

Definition bind {A B} (m : M A) (k : A → M B) : M B :=
  λ st, match m st with
        | Ok a st' => k a st'
        | Throw st' => Throw st'
        end.

Definition throw {A} : M A := λ st, Throw st.
Definition get : M State := λ st, Ok st st.
Definition modify (f : State → State) : M unit := λ st, Ok tt (f st).
Definition emit (e : Effect) : M unit := modify (log e).

(** [try { m } catch (error) { h }] *)
Definition try_catch {A} (m h : M A) : M A :=
  λ st, match m st with
        | Ok a st' => Ok a st'
        | Throw st' => h st'
        end.

Notation "'let*' x ':=' m 'in' k" := (bind m (λ x, k))
  (at level 10, x name, m at level 100, k at level 200).
Notation "m >> k" := (bind m (λ _, k))
  (at level 100, k at level 200, right associativity).

(** The state in which a handler leaves the server, thrown or not. *)
Definition state_of {A} (r : Res A) : State :=
  match r with Ok _ st => st | Throw st => st end.

(** [items.forEach(f)] *)
Fixpoint forEach {A} (f : A → M unit) (items : list A) : M unit :=
  match items with
  | [] => ret tt
  | item :: rest => f item >> forEach f rest
  end.

(** Reading a property of [peers[socketId]] / [rooms[roomName]]: a
    [TypeError] when the entry is [undefined]. *)
Definition the_peer (socketId : SocketId) : M Peer :=
  let* st := get in
  match peers st !! socketId with
  | Some p => ret p
  | None => throw
  end.

Definition the_room (roomName : RoomName) : M Room :=
  let* st := get in
  match rooms st !! roomName with
  | Some rm => ret rm
  | None => throw
  end.

(** Awaiting a promise of the engine or of the recorder. *)
Definition await {A} (answer : option A) : M A :=
  match answer with
  | Some a => ret a
  | None => throw
  end.

(** ** Utility functions *)

(** [removeItems(items, socketId, type)]: closes the handle of every item
    of the socket, then filters these items out. *)
Definition removeItems {A} (socketId_of : A → SocketId) (handle_of : A → Id)
    (items : list A) (socketId : SocketId) (type : string) : M (list A) :=
  forEach (λ item,
    if decide (socketId_of item = socketId)
    then emit (Close type (handle_of item))
    else ret tt) items >>
  ret (filter (λ item, socketId_of item ≠ socketId) items).

(** The properties that the object [rooms = {}] inherits from
    [Object.prototype].  For such a name [rooms[roomName]] is a function or
    an object, hence truthy, although nothing was stored under it. *)
Definition inherited (key : string) : bool :=
  bool_decide (key ∈
    [ "constructor"; "__defineGetter__"; "__defineSetter__";
      "hasOwnProperty"; "__lookupGetter__"; "__lookupSetter__";
      "isPrototypeOf"; "propertyIsEnumerable"; "toString"; "valueOf";
      "__proto__"; "toLocaleString" ]).

(** [createRoom(roomName, socketId)]; [engine] answers
    [worker.createRouter], which is only asked for a new room.  For an
    inherited name the test [if (rooms[roomName])] succeeds, [router1] is
    [undefined], and reading [router1.id] throws before anything is
    written.  This is [createRoom] when its router arrives at once; the
    test and the write of a new room are apart in [start] and [resume]
    below, with the member list [[]] that the closure holds since the
    test. *)
Definition createRoom (engine : option Router) (roomName : RoomName)
    (socketId : SocketId) : M Router :=
  let* st := get in
  let* rp :=
    match rooms st !! roomName with
    | Some rm => ret (r_router rm, r_peers rm)
    | None =>
        if inherited roomName then throw
        else let* router1 := await engine in ret (router1, [])
    end in
  modify (λ st, set_rooms
    (<[roomName := {| r_router := rp.1; r_peers := rp.2 ++ [socketId] |}]>
       (rooms st)) st) >>
  ret rp.1.

Definition addTransport (transport : Transport) (roomName : RoomName)
    (consumer : bool) (socket : SocketId) : M unit :=
  modify (λ st, set_transports (transports st ++
    [{| td_socketId := socket; td_transport := transport;
        td_roomName := roomName; td_consumer := consumer |}]) st) >>
  let* p := the_peer socket in
  modify (λ st, set_peers (<[socket :=
    {| pr_socket := pr_socket p; pr_roomName := pr_roomName p;
       pr_transports := pr_transports p ++ [t_id transport];
       pr_producers := pr_producers p; pr_consumers := pr_consumers p;
       pr_name := pr_name p; pr_isAdmin := pr_isAdmin p |}]> (peers st)) st).

Definition addProducer (producer : Producer) (roomName : RoomName)
    (socket : SocketId) : M unit :=
  modify (λ st, set_producers (producers st ++
    [{| pd_socketId := socket; pd_producer := producer;
        pd_roomName := roomName |}]) st) >>
  let* p := the_peer socket in
  modify (λ st, set_peers (<[socket :=
    {| pr_socket := pr_socket p; pr_roomName := pr_roomName p;
       pr_transports := pr_transports p;
       pr_producers := pr_producers p ++ [p_id producer];
       pr_consumers := pr_consumers p;
       pr_name := pr_name p; pr_isAdmin := pr_isAdmin p |}]> (peers st)) st).

Definition addConsumer (consumer : Consumer) (roomName : RoomName)
    (socket : SocketId) : M unit :=
  modify (λ st, set_consumers (consumers st ++
    [{| cd_socketId := socket; cd_consumer := consumer;
        cd_roomName := roomName |}]) st) >>
  let* p := the_peer socket in
  modify (λ st, set_peers (<[socket :=
    {| pr_socket := pr_socket p; pr_roomName := pr_roomName p;
       pr_transports := pr_transports p;
       pr_producers := pr_producers p;
       pr_consumers := pr_consumers p ++ [c_id consumer];
       pr_name := pr_name p; pr_isAdmin := pr_isAdmin p |}]> (peers st)) st).

(** The test of [informConsumers] and of [getProducers]:
    [producerData.socketId !== socketId && producerData.roomName === roomName] *)
Definition other_in_room (roomName : RoomName) (socketId : SocketId)
    (producerData : ProducerData) : bool :=
  bool_decide (pd_socketId producerData ≠ socketId) &&
  bool_decide (pd_roomName producerData = roomName).

Definition informConsumers (roomName : RoomName) (socketId : SocketId)
    (id : Id) : M unit :=
  let* st := get in
  forEach (λ producerData,
    if other_in_room roomName socketId producerData
    then let* p := the_peer (pd_socketId producerData) in
         emit (Emit (pr_socket p) "new-producer" id)
    else ret tt) (producers st).

(** [getTransport(socketId)]: the first transport of the socket that is not
    a consumer transport; a [TypeError] when there is none. *)
Definition getTransport (socketId : SocketId) : M Transport :=
  let* st := get in
  match filter (λ transport, td_socketId transport = socketId
                             ∧ td_consumer transport = false)
               (transports st) with
  | producerTransport :: _ => ret (td_transport producerTransport)
  | [] => throw
  end.

(** ** Socket handlers *)

(** [socket.on('disconnect')], the handler registered first. *)
Definition on_disconnect_cleanup (socket : SocketId) : M unit :=
  let* st := get in
  let* cs := removeItems cd_socketId (λ i, c_id (cd_consumer i))
               (consumers st) socket "consumer" in
  modify (set_consumers cs) >>
  let* st := get in
  let* ps := removeItems pd_socketId (λ i, p_id (pd_producer i))
               (producers st) socket "producer" in
  modify (set_producers ps) >>
  let* st := get in
  let* ts := removeItems td_socketId (λ i, t_id (td_transport i))
               (transports st) socket "transport" in
  modify (set_transports ts) >>
  let* p := the_peer socket in
  let roomName := pr_roomName p in
  modify (λ st, set_peers (delete socket (peers st)) st) >>
  let* rm := the_room roomName in
  modify (λ st, set_rooms (<[roomName :=
    {| r_router := r_router rm;
       r_peers := filter (λ id, id ≠ socket) (r_peers rm) |}]> (rooms st)) st).

(** [socket.on('disconnect')], the handler registered last: stops the
    recordings of the producers of the socket. *)
Definition on_disconnect_recordings (socket : SocketId) : M unit :=
  let* st := get in
  forEach (λ producerData,
    if decide (pd_socketId producerData = socket)
    then emit (StopCombinedRecording (p_id (pd_producer producerData)))
    else ret tt) (producers st).

(** The [disconnect] event: the listeners run in the order of their
    registration, and a listener that throws ends the dispatch. *)
Definition on_disconnect (socket : SocketId) : M unit :=
  on_disconnect_cleanup socket >> on_disconnect_recordings socket.

(** [socket.on('joinRoom')] *)
Definition on_joinRoom (socket : SocketId) (roomName : RoomName)
    (userName : string) (engine : option Router) : M unit :=
  let* router1 := createRoom engine roomName socket in
  modify (λ st, set_peers (<[socket :=
    {| pr_socket := socket; pr_roomName := roomName;
       pr_transports := []; pr_producers := []; pr_consumers := [];
       pr_name := userName; pr_isAdmin := false |}]> (peers st)) st) >>
  emit (Callback socket (RtpCapabilities router1)).

(** [socket.on('createWebRtcTransport')]; [engine] answers
    [router.createWebRtcTransport].  A rejection is logged to the console
    and the request stays unanswered. *)
Definition on_createWebRtcTransport (socket : SocketId) (consumer : bool)
    (engine : option Transport) : M unit :=
  let* p := the_peer socket in
  let roomName := pr_roomName p in
  let* rm := the_room roomName in
  match engine with
  | Some transport =>
      emit (Callback socket (TransportParams (t_id transport))) >>
      addTransport transport roomName consumer socket
  | None => ret tt
  end.

(** The loop of [getProducers]: [producerList = [...producerList, id]] for
    every producer of another socket in the room. *)
Definition collect_producers (roomName : RoomName) (socketId : SocketId)
    (items : list ProducerData) : list Id :=
  foldl (λ (producerList : list Id) producerData,
    if other_in_room roomName socketId producerData
    then producerList ++ [p_id (pd_producer producerData)]
    else producerList) [] items.

(** [socket.on('getProducers')] *)
Definition on_getProducers (socket : SocketId) : M unit :=
  let* p := the_peer socket in
  let roomName := pr_roomName p in
  let* st := get in
  emit (Callback socket
          (ProducerList (collect_producers roomName socket (producers st)))).

(** [socket.on('transport-connect')] *)
Definition on_transport_connect (socket : SocketId) : M unit :=
  let* transport := getTransport socket in
  emit (Connect (t_id transport)).

(** [socket.on('transport-produce')]; [engine] is the id of the producer
    that [transport.produce] resolves with. *)
Definition on_transport_produce (socket : SocketId) (kind : string)
    (engine : option Id) : M unit :=
  let* transport := getTransport socket in
  let* id := await engine in
  let producer := {| p_id := id; p_kind := kind |} in
  let* p := the_peer socket in
  let roomName := pr_roomName p in
  addProducer producer roomName socket >>
  informConsumers roomName socket (p_id producer) >>
  let* st := get in
  emit (Callback socket
          (Produced (p_id producer) (1 <? length (producers st)))).

(** [transports.find(transportData => transportData.consumer &&
    transportData.transport.id == serverConsumerTransportId)] *)
Definition find_consumer_transport (serverConsumerTransportId : Id)
    (items : list TransportData) : option TransportData :=
  find (λ transportData,
    td_consumer transportData &&
    bool_decide (t_id (td_transport transportData) = serverConsumerTransportId))
    items.

(** [socket.on('transport-recv-connect')]; [engine] answers
    [consumerTransport.connect], which the handler awaits. *)
Definition on_transport_recv_connect (socket : SocketId)
    (serverConsumerTransportId : Id) (engine : option unit) : M unit :=
  let* st := get in
  let* transportData :=
    await (find_consumer_transport serverConsumerTransportId (transports st)) in
  emit (Connect (t_id (td_transport transportData))) >>
  await engine.

(** [socket.on('consume')]; [canConsume] answers [router.canConsume] and
    [engine] answers [consumerTransport.consume]. *)
Definition on_consume (socket : SocketId) (remoteProducerId : Id)
    (serverConsumerTransportId : Id) (canConsume : bool)
    (engine : option Consumer) : M unit :=
  try_catch
    (let* p := the_peer socket in
     let roomName := pr_roomName p in
     let* rm := the_room roomName in
     let* st := get in
     let* transportData :=
       await (find_consumer_transport serverConsumerTransportId
                (transports st)) in
     if canConsume then
       let* consumer := await engine in
       addConsumer consumer roomName socket >>
       emit (Callback socket
               (ConsumeParams (c_id consumer) remoteProducerId
                  (c_kind consumer)))
     else ret tt)
    (emit (Callback socket ConsumeError)).

(** The listener that [consume] installs on a new consumer:
    [consumer.on('producerclose')].  It runs when the engine reports that
    the consumed producer is closed; [socket], [remoteProducerId],
    [consumerTransport] and [consumer] are the values its closure holds. *)
Definition on_producerclose (socket : SocketId) (remoteProducerId : Id)
    (consumerTransport : Transport) (consumer : Consumer) : M unit :=
  emit (Emit socket "producer-closed" remoteProducerId) >>
  emit (Close "transport" (t_id consumerTransport)) >>
  modify (λ st, set_transports
    (filter (λ transportData,
       t_id (td_transport transportData) ≠ t_id consumerTransport)
       (transports st)) st) >>
  emit (Close "consumer" (c_id consumer)) >>
  modify (λ st, set_consumers
    (filter (λ consumerData,
       c_id (cd_consumer consumerData) ≠ c_id consumer)
       (consumers st)) st).

(** [producers.find(p => p.producer.id === id)?.producer] *)
Definition find_producer (id : Id) (items : list ProducerData)
    : option Producer :=
  pd_producer <$>
    find (λ p, bool_decide (p_id (pd_producer p) = id)) items.

(** [socket.on('startRecording')]; [recorder] answers
    [startCombinedRecording] with the file name. *)
Definition on_startRecording (socket : SocketId)
    (audioProducerId videoProducerId : Id) (recorder : option string)
    : M unit :=
  try_catch
    (let* st := get in
     match find_producer audioProducerId (producers st),
           find_producer videoProducerId (producers st) with
     | Some audioProducer, Some videoProducer =>
         if bool_decide (p_kind audioProducer ≠ "audio") ||
            bool_decide (p_kind videoProducer ≠ "video")
         then emit (Callback socket (Error
                "Invalid producer kinds. Need one audio and one video producer."))
         else
           let* p := the_peer socket in
           emit (StartCombinedRecording audioProducer videoProducer
                   (pr_roomName p) socket) >>
           let* fileName := await recorder in
           emit (Callback socket (RecordingStarted fileName))
     | _, _ =>
         emit (Callback socket (Error "One or both producers not found"))
     end)
    (emit (Callback socket CaughtError)).

(** ** Runs of the server without interruption *)

(** The events the server reacts to, with the answers of the engine. *)
Inductive Op :=
| Disconnect (socket : SocketId)
| JoinRoom (socket : SocketId) (roomName : RoomName) (userName : string)
    (engine : option Router)
| CreateWebRtcTransport (socket : SocketId) (consumer : bool)
    (engine : option Transport)
| GetProducers (socket : SocketId)
| TransportConnect (socket : SocketId)
| TransportProduce (socket : SocketId) (kind : string) (engine : option Id)
| TransportRecvConnect (socket : SocketId) (serverConsumerTransportId : Id)
    (engine : option unit)
| Consume (socket : SocketId) (remoteProducerId serverConsumerTransportId : Id)
    (canConsume : bool) (engine : option Consumer)
| ProducerClose (socket : SocketId) (remoteProducerId : Id)
    (consumerTransport : Transport) (consumer : Consumer)
| StartRecording (socket : SocketId) (audioProducerId videoProducerId : Id)
    (recorder : option string).

Definition handler (op : Op) : M unit :=
  match op with
  | Disconnect s => on_disconnect s
  | JoinRoom s r u e => on_joinRoom s r u e
  | CreateWebRtcTransport s c e => on_createWebRtcTransport s c e
  | GetProducers s => on_getProducers s
  | TransportConnect s => on_transport_connect s
  | TransportProduce s k e => on_transport_produce s k e
  | TransportRecvConnect s i e => on_transport_recv_connect s i e
  | Consume s rp ct cc e => on_consume s rp ct cc e
  | ProducerClose s rp ct c => on_producerclose s rp ct c
  | StartRecording s a v r => on_startRecording s a v r
  end.

(** One handler that nothing interrupts: the server goes on from the state
    the handler left, whether it returned or threw.  The runs in which
    handlers overlap at their [await]s are those of [async_run] below. *)
Definition step (st : State) (op : Op) : State := state_of (handler op st).

Definition run (ops : list Op) (st : State) : State := foldl step st ops.

(** The states that the server reaches when no handler is interrupted. *)
Definition reachable (st : State) : Prop := ∃ ops, st = run ops init.

(** ** The server with suspended handlers *)

(** A handler that has reached an [await], with the values its closure
    holds and the answer that the awaited promise will settle with. *)
Inductive Suspended :=
| at_createRouter (socket : SocketId) (roomName : RoomName)
    (userName : string) (engine : option Router)
| at_createRoom (socket : SocketId) (roomName : RoomName)
    (userName : string) (router1 : Router)
| at_createWebRtcTransport (socket : SocketId) (roomName : RoomName)
    (consumer : bool) (engine : option Transport)
| at_produce (socket : SocketId) (kind : string) (engine : option Id)
| at_connect (engine : option unit)
| at_consume (socket : SocketId) (roomName : RoomName)
    (remoteProducerId : Id) (engine : option Consumer)
| at_startCombinedRecording (socket : SocketId) (recorder : option string).

(** A handler from its first statement to its first [await], or to its
    end when it has none.  [joinRoom] runs [createRoom] up to
    [await worker.createRouter] for a new room, and to the end of
    [createRoom] for a registered one, where [await createRoom(..)]
    suspends it. *)
Definition start (op : Op) : M (option Suspended) :=
  match op with
  | Disconnect socket => on_disconnect socket >> ret None
  | JoinRoom socket roomName userName engine =>
      let* st := get in
      match rooms st !! roomName with
      | Some rm =>
          modify (λ st, set_rooms
            (<[roomName := {| r_router := r_router rm;
                              r_peers := r_peers rm ++ [socket] |}]>
               (rooms st)) st) >>
          ret (Some (at_createRoom socket roomName userName (r_router rm)))
      | None =>
          if inherited roomName then throw
          else ret (Some (at_createRouter socket roomName userName engine))
      end
  | CreateWebRtcTransport socket consumer engine =>
      let* p := the_peer socket in
      let roomName := pr_roomName p in
      let* rm := the_room roomName in
      ret (Some (at_createWebRtcTransport socket roomName consumer engine))
  | GetProducers socket => on_getProducers socket >> ret None
  | TransportConnect socket => on_transport_connect socket >> ret None
  | TransportProduce socket kind engine =>
      let* transport := getTransport socket in
      ret (Some (at_produce socket kind engine))
  | TransportRecvConnect socket serverConsumerTransportId engine =>
      let* st := get in
      let* transportData :=
        await (find_consumer_transport serverConsumerTransportId
                 (transports st)) in
      emit (Connect (t_id (td_transport transportData))) >>
      ret (Some (at_connect engine))
  | Consume socket remoteProducerId serverConsumerTransportId canConsume
      engine =>
      try_catch
        (let* p := the_peer socket in
         let roomName := pr_roomName p in
         let* rm := the_room roomName in
         let* st := get in
         let* transportData :=
           await (find_consumer_transport serverConsumerTransportId
                    (transports st)) in
         if canConsume
         then ret (Some (at_consume socket roomName remoteProducerId engine))
         else ret None)
        (emit (Callback socket ConsumeError) >> ret None)
  | ProducerClose socket remoteProducerId consumerTransport consumer =>
      on_producerclose socket remoteProducerId consumerTransport consumer >>
      ret None
  | StartRecording socket audioProducerId videoProducerId recorder =>
      try_catch
        (let* st := get in
         match find_producer audioProducerId (producers st),
               find_producer videoProducerId (producers st) with
         | Some audioProducer, Some videoProducer =>
             if bool_decide (p_kind audioProducer ≠ "audio") ||
                bool_decide (p_kind videoProducer ≠ "video")
             then emit (Callback socket (Error
                    "Invalid producer kinds. Need one audio and one video producer.")) >>
                  ret None
             else
               let* p := the_peer socket in
               emit (StartCombinedRecording audioProducer videoProducer
                       (pr_roomName p) socket) >>
               ret (Some (at_startCombinedRecording socket recorder))
         | _, _ =>
             emit (Callback socket (Error "One or both producers not found")) >>
             ret None
         end)
        (emit (Callback socket CaughtError) >> ret None)
  end.

(** A suspended handler from the settling of its promise to its next
    [await] or to its end. *)
Definition resume (k : Suspended) : M (option Suspended) :=
  match k with
  | at_createRouter socket roomName userName engine =>
      let* router1 := await engine in
      modify (λ st, set_rooms
        (<[roomName := {| r_router := router1; r_peers := [] ++ [socket] |}]>
           (rooms st)) st) >>
      ret (Some (at_createRoom socket roomName userName router1))
  | at_createRoom socket roomName userName router1 =>
      modify (λ st, set_peers (<[socket :=
        {| pr_socket := socket; pr_roomName := roomName;
           pr_transports := []; pr_producers := []; pr_consumers := [];
           pr_name := userName; pr_isAdmin := false |}]> (peers st)) st) >>
      emit (Callback socket (RtpCapabilities router1)) >>
      ret None
  | at_createWebRtcTransport socket roomName consumer engine =>
      match engine with
      | Some transport =>
          emit (Callback socket (TransportParams (t_id transport))) >>
          addTransport transport roomName consumer socket >>
          ret None
      | None => ret None
      end
  | at_produce socket kind engine =>
      let* id := await engine in
      let producer := {| p_id := id; p_kind := kind |} in
      let* p := the_peer socket in
      let roomName := pr_roomName p in
      addProducer producer roomName socket >>
      informConsumers roomName socket (p_id producer) >>
      let* st := get in
      emit (Callback socket
              (Produced (p_id producer) (1 <? length (producers st)))) >>
      ret None
  | at_connect engine => await engine >> ret None
  | at_consume socket roomName remoteProducerId engine =>
      try_catch
        (let* consumer := await engine in
         addConsumer consumer roomName socket >>
         emit (Callback socket
                 (ConsumeParams (c_id consumer) remoteProducerId
                    (c_kind consumer))) >>
         ret None)
        (emit (Callback socket ConsumeError) >> ret None)
  | at_startCombinedRecording socket recorder =>
      try_catch
        (let* fileName := await recorder in
         emit (Callback socket (RecordingStarted fileName)) >>
         ret None)
        (emit (Callback socket CaughtError) >> ret None)
  end.

(** A handler that nothing interrupts: every promise it awaits settles
    before any other handler runs. *)
Fixpoint finish (awaits : nat) (k : option Suspended) : M unit :=
  match k, awaits with
  | Some k, S awaits => let* k' := resume k in finish awaits k'
  | _, _ => ret tt
  end.

Definition uninterrupted (op : Op) : M unit :=
  let* k := start op in finish 2 k.

(** The server: the state and the handlers that are suspended. *)
Record Server := {
  current : State;
  suspended : list Suspended
}.

Definition init_server : Server := {| current := init; suspended := [] |}.

(** What happens on the server: a message (or a disconnect, or a
    producer-close) starts its handler, or the promise of the [i]-th
    suspended handler settles and the handler goes on. *)
Inductive Event :=
| Start (op : Op)
| Resume (i : nat).

Definition settle (r : Res (option Suspended)) (others : list Suspended)
    : Server :=
  match r with
  | Ok (Some k) st => {| current := st; suspended := others ++ [k] |}
  | Ok None st => {| current := st; suspended := others |}
  | Throw st => {| current := st; suspended := others |}
  end.

Definition async_step (sv : Server) (ev : Event) : Server :=
  match ev with
  | Start op => settle (start op (current sv)) (suspended sv)
  | Resume i =>
      match suspended sv !! i with
      | Some k => settle (resume k (current sv)) (delete i (suspended sv))
      | None => sv
      end
  end.

Definition async_run (evs : list Event) (sv : Server) : Server :=
  foldl async_step sv evs.

(** The states that the server reaches, however its handlers overlap. *)
Definition async_reachable (sv : Server) : Prop :=
  ∃ evs, sv = async_run evs init_server.

(** ** Vocabulary of the statements *)

(** Appending several effects to the trace. *)
Definition logs (es : list Effect) (st : State) : State :=
  {| rooms := rooms st; peers := peers st; transports := transports st;
     producers := producers st; consumers := consumers st;
     trace := trace st ++ es |}.

(** A conference used in the examples: [A] and [B] join ["room1"], [A]
    publishes a video stream and [B] consumes it. *)
Definition conference_ops : list Op :=
  [ JoinRoom "A" "room1" "alice" (Some "R1");
    JoinRoom "B" "room1" "bob" None;
    CreateWebRtcTransport "A" false (Some {| t_id := "tA" |});
    TransportProduce "A" "video" (Some "pA");
    CreateWebRtcTransport "B" true (Some {| t_id := "tB" |});
    Consume "B" "pA" "tB" true (Some {| c_id := "cB"; c_kind := "video" |}) ].

Definition conference : State := run conference_ops init.

Definition peerA : Peer :=
  {| pr_socket := "A"; pr_roomName := "room1"; pr_transports := ["tA"];
     pr_producers := ["pA"]; pr_consumers := []; pr_name := "alice";
     pr_isAdmin := false |}.

Definition peerB : Peer :=
  {| pr_socket := "B"; pr_roomName := "room1"; pr_transports := ["tB"];
     pr_producers := []; pr_consumers := ["cB"]; pr_name := "bob";
     pr_isAdmin := false |}.

Definition room1 : Room := {| r_router := "R1"; r_peers := ["A"; "B"] |}.

(** *** Invariants of the runs without interruption *)

(** The socket kept in a peer record is the socket the record is filed
    under. *)
Definition socket_ok (ps : gmap string Peer) : Prop :=
  ∀ s p, ps !! s = Some p → pr_socket p = s.

(** Every record of a registry is tagged with a socket that has a peer
    record. *)
Definition owners_in {A} (owner : A → SocketId) (ps : gmap string Peer)
    (items : list A) : Prop :=
  ∀ i, i ∈ items → is_Some (ps !! owner i).

(** The room of every peer is registered. *)
Definition rooms_in (rs : gmap string Room) (ps : gmap string Peer) : Prop :=
  ∀ s p, ps !! s = Some p → is_Some (rs !! pr_roomName p).

Record Inv (st : State) : Prop := {
  inv_socket : socket_ok (peers st);
  inv_transports : owners_in td_socketId (peers st) (transports st);
  inv_producers : owners_in pd_socketId (peers st) (producers st);
  inv_consumers : owners_in cd_socketId (peers st) (consumers st);
  inv_rooms : rooms_in (rooms st) (peers st)
}.

(** *** The peer record after [addTransport], [addProducer], [addConsumer] *)

Definition peer_with_transport (p : Peer) (id : Id) : Peer :=
  {| pr_socket := pr_socket p; pr_roomName := pr_roomName p;
     pr_transports := pr_transports p ++ [id];
     pr_producers := pr_producers p; pr_consumers := pr_consumers p;
     pr_name := pr_name p; pr_isAdmin := pr_isAdmin p |}.

Definition peer_with_producer (p : Peer) (id : Id) : Peer :=
  {| pr_socket := pr_socket p; pr_roomName := pr_roomName p;
     pr_transports := pr_transports p;
     pr_producers := pr_producers p ++ [id];
     pr_consumers := pr_consumers p;
     pr_name := pr_name p; pr_isAdmin := pr_isAdmin p |}.

Definition peer_with_consumer (p : Peer) (id : Id) : Peer :=
  {| pr_socket := pr_socket p; pr_roomName := pr_roomName p;
     pr_transports := pr_transports p;
     pr_producers := pr_producers p;
     pr_consumers := pr_consumers p ++ [id];
     pr_name := pr_name p; pr_isAdmin := pr_isAdmin p |}.

(** *** Rooms and their members *)

(** The peer record that [joinRoom] files. *)
Definition fresh_peer (socket : SocketId) (roomName : RoomName)
    (userName : string) : Peer :=
  {| pr_socket := socket; pr_roomName := roomName;
     pr_transports := []; pr_producers := []; pr_consumers := [];
     pr_name := userName; pr_isAdmin := false |}.

(** The member list of a room; empty for a room that is not registered. *)
Definition members (st : State) (roomName : RoomName) : list SocketId :=
  default [] (r_peers <$> rooms st !! roomName).

(** How many times a socket occurs in a member list. *)
Definition occurrences (socket : SocketId) (l : list SocketId) : nat :=
  length (filter (λ id, id = socket) l).

(** *** The states after a disconnect *)

(** The registries without the records of a socket. *)
Definition removed (socket : SocketId) (st : State) : State :=
  set_transports (filter (λ i, td_socketId i ≠ socket) (transports st))
    (set_producers (filter (λ i, pd_socketId i ≠ socket) (producers st))
       (set_consumers (filter (λ i, cd_socketId i ≠ socket) (consumers st))
          st)).

(** The [close()] calls of a disconnect: on the consumers, then the
    producers, then the transports of the socket. *)
Definition closes (socket : SocketId) (st : State) : list Effect :=
  ((λ i, Close "consumer" (c_id (cd_consumer i))) <$>
     filter (λ i, cd_socketId i = socket) (consumers st)) ++
  ((λ i, Close "producer" (p_id (pd_producer i))) <$>
     filter (λ i, pd_socketId i = socket) (producers st)) ++
  ((λ i, Close "transport" (t_id (td_transport i))) <$>
     filter (λ i, td_socketId i = socket) (transports st)).

(** The state after the [disconnect] of a socket that has a peer record
    whose room is registered. *)
Definition disconnected (socket : SocketId) (p : Peer) (rm : Room)
    (st : State) : State :=
  logs (closes socket st)
    (set_rooms (<[pr_roomName p :=
        {| r_router := r_router rm;
           r_peers := filter (λ id, id ≠ socket) (r_peers rm) |}]> (rooms st))
       (set_peers (delete socket (peers st)) (removed socket st))).

(** *** Consistency of the registries with the id lists of the peers *)

(** Every record of a registry is tagged with a socket whose peer record
    lists the id of the record. *)
Definition registered {A} (owner : A → SocketId) (ident : A → Id)
    (ids : Peer → list Id) (ps : gmap string Peer) (items : list A) : Prop :=
  ∀ i, i ∈ items → ∃ p, ps !! owner i = Some p ∧ ident i ∈ ids p.

(** Every id listed in a peer record is the id of a record of the
    registry. *)
Definition named {A} (ident : A → Id) (ids : Peer → list Id)
    (ps : gmap string Peer) (items : list A) : Prop :=
  ∀ s p id, ps !! s = Some p → id ∈ ids p → ∃ i, i ∈ items ∧ ident i = id.


Definition transport_id (i : TransportData) : Id := t_id (td_transport i).
Definition producer_id (i : ProducerData) : Id := p_id (pd_producer i).
Definition consumer_id (i : ConsumerData) : Id := c_id (cd_consumer i).

(** Mutual consistency of the registries and the peers. *)
Record consistent (st : State) : Prop := {
  transports_registered :
    registered td_socketId transport_id pr_transports (peers st)
      (transports st);
  producers_registered :
    registered pd_socketId producer_id pr_producers (peers st) (producers st);
  consumers_registered :
    registered cd_socketId consumer_id pr_consumers (peers st) (consumers st);
  transports_named :
    named transport_id pr_transports (peers st) (transports st);
  producers_named :
    named producer_id pr_producers (peers st) (producers st);
  consumers_named :
    named consumer_id pr_consumers (peers st) (consumers st)
}.

(** *** Further handlers and listeners *)

(** [socket.on('consumer-resume')].  The value is the consumer on which
    [resume()] is called; [engine] answers [consumer.resume()]. *)
Definition on_consumer_resume (socket : SocketId) (serverConsumerId : Id)
    (engine : option unit) : M Consumer :=
  let* st := get in
  let* consumerData :=
    await (find (λ consumerData,
             bool_decide (c_id (cd_consumer consumerData) = serverConsumerId))
             (consumers st)) in
  await engine >>
  ret (cd_consumer consumerData).

(** The listener that [createWebRtcTransport] installs on a new transport:
    [transport.on('dtlsstatechange')]. *)
Definition on_dtlsstatechange (transport : Transport) (dtlsState : string)
    : M unit :=
  if bool_decide (dtlsState = "closed")
  then emit (Close "transport" (t_id transport))
  else ret tt.

(** The catch-all route [app.get('*')]: the request goes on to the static
    files of the room page, or is answered with the usage hint. *)
Inductive RouteAnswer :=
| Next
| UsageHint.

Definition route (req_path : string) : RouteAnswer :=
  let path := "/sfu/" in
  if bool_decide (String.index 0 path req_path = Some 0) &&
     (String.length path <? String.length req_path)
  then Next
  else UsageHint.

(** What a handler has sent: the effects appended to the trace. *)
Definition sent (st st' : State) : list Effect :=
  drop (length (trace st)) (trace st').

(** *** The two halves of consistency *)

(** Every record of a registry is tagged with a socket whose peer record
    lists the id of the record. *)
Record records_have_owners (st : State) : Prop := {
  owners_of_transports :
    registered td_socketId transport_id pr_transports (peers st)
      (transports st);
  owners_of_producers :
    registered pd_socketId producer_id pr_producers (peers st) (producers st);
  owners_of_consumers :
    registered cd_socketId consumer_id pr_consumers (peers st) (consumers st)
}.

(** Every id listed in a peer record is the id of a record of the matching
    registry. *)
Record ids_have_records (st : State) : Prop := {
  records_of_transports :
    named transport_id pr_transports (peers st) (transports st);
  records_of_producers :
    named producer_id pr_producers (peers st) (producers st);
  records_of_consumers :
    named consumer_id pr_consumers (peers st) (consumers st)
}.


(** *** What one event writes *)

(** The kinds of writes other than those of [joinRoom]: ordinary ones, a
    record added for a socket without peer record, the removals of a
    producer-close, and the cleanup of a disconnect. *)
Inductive Kind :=
| plain
| orphan
| closing
| leaving (socket : SocketId).

(** [change kind st st1]: up to the trace, [st1] is [st] after one of the
    writes that a part of a handler makes. *)
Inductive change : Kind → State → State → Prop :=
| ch_none st :
    change plain st st
| ch_room_joined socket roomName rm st :
    rooms st !! roomName = Some rm →
    change plain st
      (set_rooms (<[roomName :=
          {| r_router := r_router rm; r_peers := r_peers rm ++ [socket] |}]>
          (rooms st)) st)
| ch_transport socket roomName consumer transport p st :
    peers st !! socket = Some p →
    change plain st
      (set_peers
         (<[socket := peer_with_transport p (t_id transport)]> (peers st))
         (set_transports (transports st ++
            [{| td_socketId := socket; td_transport := transport;
                td_roomName := roomName; td_consumer := consumer |}]) st))
| ch_transport_orphan socket roomName consumer transport st :
    peers st !! socket = None →
    change orphan st
      (set_transports (transports st ++
         [{| td_socketId := socket; td_transport := transport;
             td_roomName := roomName; td_consumer := consumer |}]) st)
| ch_producer socket producer p st :
    peers st !! socket = Some p →
    change plain st
      (set_peers (<[socket := peer_with_producer p (p_id producer)]> (peers st))
         (set_producers (producers st ++
            [{| pd_socketId := socket; pd_producer := producer;
                pd_roomName := pr_roomName p |}]) st))
| ch_consumer socket roomName consumer p st :
    peers st !! socket = Some p →
    change plain st
      (set_peers (<[socket := peer_with_consumer p (c_id consumer)]> (peers st))
         (set_consumers (consumers st ++
            [{| cd_socketId := socket; cd_consumer := consumer;
                cd_roomName := roomName |}]) st))
| ch_consumer_orphan socket roomName consumer st :
    peers st !! socket = None →
    change orphan st
      (set_consumers (consumers st ++
         [{| cd_socketId := socket; cd_consumer := consumer;
             cd_roomName := roomName |}]) st)
| ch_producerclose consumerTransport consumer st :
    change closing st
      (set_consumers
         (filter (λ i, c_id (cd_consumer i) ≠ c_id consumer) (consumers st))
         (set_transports
            (filter (λ i, t_id (td_transport i) ≠ t_id consumerTransport)
               (transports st)) st))
| ch_removed socket st :
    peers st !! socket = None →
    change (leaving socket) st (removed socket st)
| ch_left_roomless socket p st :
    peers st !! socket = Some p →
    rooms st !! pr_roomName p = None →
    change (leaving socket) st
      (set_peers (delete socket (peers st)) (removed socket st))
| ch_left socket p rm st :
    peers st !! socket = Some p →
    rooms st !! pr_roomName p = Some rm →
    change (leaving socket) st
      (set_rooms (<[pr_roomName p :=
          {| r_router := r_router rm;
             r_peers := filter (λ id, id ≠ socket) (r_peers rm) |}]>
          (rooms st))
         (set_peers (delete socket (peers st)) (removed socket st))).

(** *** Conditions on the events of a run *)




(** No [joinRoom] that found the room unregistered waits for its router. *)
Definition no_router_awaited (roomName : RoomName) (sv : Server) : Prop :=
  ∀ socket userName engine,
    at_createRouter socket roomName userName engine ∉ suspended sv.

(** The conference of the examples as events of the server: every handler
    goes on as soon as it is suspended. *)
Definition promptly (ops : list Op) : list Event :=
  ops ≫= λ op, [Start op; Resume 0; Resume 0].

(** *** What every interleaving keeps *)


Ltac monad_unfold :=
  unfold the_peer, the_room, await, emit, try_catch, bind, get, modify,
    ret, throw in *.

(** * Properties *)

(** ** Basic facts about the monad and the utility functions *)

Lemma logs_nil st : logs [] st = st.
Proof. destruct st; unfold logs; simpl. by rewrite app_nil_r. Qed.

Lemma logs_log e es st : logs es (log e st) = logs (e :: es) st.
Proof. unfold logs, log; simpl. by rewrite <- app_assoc. Qed.

Lemma log_logs e st : log e st = logs [e] st.
Proof. reflexivity. Qed.

Lemma logs_logs es1 es2 st : logs es2 (logs es1 st) = logs (es1 ++ es2) st.
Proof. unfold logs; simpl. by rewrite app_assoc. Qed.

(** A loop whose body only emits: it returns, and the state differs by
    the effects of the selected items. *)
Lemma forEach_emit {A} (P : A → Prop) `{∀ x, Decision (P x)}
    (e : A → Effect) (items : list A) (st : State) :
  forEach (λ item, if decide (P item) then emit (e item) else ret tt) items st
  = Ok tt (logs (e <$> filter P items) st).
Proof.
  revert st. induction items as [|x items IH]; intros st; simpl.
  - by rewrite logs_nil.
  - unfold bind. rewrite filter_cons. destruct (decide (P x)); simpl.
    + rewrite IH. by rewrite logs_log.
    + by rewrite IH.
Qed.

Lemma removeItems_eq {A} (socketId_of : A → SocketId) (handle_of : A → Id)
    (items : list A) (socketId : SocketId) (type : string) (st : State) :
  removeItems socketId_of handle_of items socketId type st
  = Ok (filter (λ item, socketId_of item ≠ socketId) items)
       (logs ((λ item, Close type (handle_of item)) <$>
                filter (λ item, socketId_of item = socketId) items) st).
Proof.
  unfold removeItems, bind.
  by rewrite (forEach_emit (λ item, socketId_of item = socketId)).
Qed.

(** Filtering twice on being another socket's leaves nothing of the socket. *)
Lemma filter_ne_none {A} (f : A → SocketId) (s : SocketId) (l : list A) :
  filter (λ x, f x = s) (filter (λ x, f x ≠ s) l) = [].
Proof.
  induction l as [|x l IH]; [done|].
  rewrite filter_cons. destruct (decide (f x ≠ s)) as [Hne|Heq]; [|done].
  rewrite filter_cons. by destruct (decide (f x = s)).
Qed.

(** ** Disconnect *)

Lemma on_disconnect_cleanup_joined socket p rm st :
  peers st !! socket = Some p →
  rooms st !! pr_roomName p = Some rm →
  on_disconnect_cleanup socket st = Ok tt (disconnected socket p rm st).
Proof.
  intros Hp Hrm. unfold on_disconnect_cleanup.
  monad_unfold. repeat (rewrite removeItems_eq; simpl).
  rewrite Hp. simpl. rewrite Hrm. simpl.
  unfold disconnected, closes, logs, removed, set_rooms, set_peers. simpl.
  by rewrite <- !app_assoc.
Qed.

Lemma on_disconnect_cleanup_roomless socket p st :
  peers st !! socket = Some p →
  rooms st !! pr_roomName p = None →
  on_disconnect_cleanup socket st
  = Throw (logs (closes socket st)
             (set_peers (delete socket (peers st)) (removed socket st))).
Proof.
  intros Hp Hrm. unfold on_disconnect_cleanup.
  monad_unfold. repeat (rewrite removeItems_eq; simpl).
  rewrite Hp. simpl. rewrite Hrm. simpl.
  unfold closes, logs, removed, set_peers. simpl.
  by rewrite <- !app_assoc.
Qed.

Lemma on_disconnect_cleanup_unknown socket st :
  peers st !! socket = None →
  on_disconnect_cleanup socket st
  = Throw (logs (closes socket st) (removed socket st)).
Proof.
  intros Hp. unfold on_disconnect_cleanup.
  monad_unfold. repeat (rewrite removeItems_eq; simpl).
  rewrite Hp. simpl.
  unfold closes, logs, removed. simpl.
  by rewrite <- !app_assoc.
Qed.

Lemma on_disconnect_recordings_none socket st :
  filter (λ i, pd_socketId i = socket) (producers st) = [] →
  on_disconnect_recordings socket st = Ok tt st.
Proof.
  intros Hnone. unfold on_disconnect_recordings, bind, get.
  rewrite (forEach_emit (λ i, pd_socketId i = socket)).
  by rewrite Hnone, logs_nil.
Qed.

Lemma on_disconnect_joined socket p rm st :
  peers st !! socket = Some p →
  rooms st !! pr_roomName p = Some rm →
  on_disconnect socket st = Ok tt (disconnected socket p rm st).
Proof.
  intros Hp Hrm. unfold on_disconnect, bind.
  rewrite (on_disconnect_cleanup_joined _ p rm) by done.
  apply on_disconnect_recordings_none. simpl. apply filter_ne_none.
Qed.

(** C1.  When the peer of a connection has joined a room (its record is in
    [peers] and the record of its room is in [rooms]), the [disconnect]
    event returns and leaves no record of the connection in the transport,
    producer and consumer registries, no peer record for it, and its room
    still registered with the same router and without the connection among
    its members. *)
Theorem disconnect_removes_peer_keeps_room :
  ∀ (st : State) (socket : SocketId) (p : Peer) (rm : Room),
    peers st !! socket = Some p →
    rooms st !! pr_roomName p = Some rm →
    ∃ st' rm',
      on_disconnect socket st = Ok tt st' ∧
      filter (λ i, td_socketId i = socket) (transports st') = [] ∧
      filter (λ i, pd_socketId i = socket) (producers st') = [] ∧
      filter (λ i, cd_socketId i = socket) (consumers st') = [] ∧
      peers st' !! socket = None ∧
      rooms st' !! pr_roomName p = Some rm' ∧
      r_router rm' = r_router rm ∧
      socket ∉ r_peers rm'.
Proof.
  intros st socket p rm Hp Hrm.
  eexists (disconnected socket p rm st), _.
  split; [by apply on_disconnect_joined|].
  simpl. rewrite !filter_ne_none, lookup_delete_eq, lookup_insert_eq.
  repeat split; try done.
  simpl. rewrite list_elem_of_filter. by intros [Hne _].
Qed.

Lemma disconnect_removes_peer_keeps_room_witness :
  ∃ st' rm',
    on_disconnect "A" conference = Ok tt st' ∧
    filter (λ i, td_socketId i = "A") (transports st') = [] ∧
    filter (λ i, pd_socketId i = "A") (producers st') = [] ∧
    filter (λ i, cd_socketId i = "A") (consumers st') = [] ∧
    peers st' !! "A" = None ∧
    rooms st' !! "room1" = Some rm' ∧
    r_router rm' = "R1" ∧
    "A" ∉ r_peers rm'.
Proof.
  apply (disconnect_removes_peer_keeps_room conference "A" peerA room1);
    vm_compute; reflexivity.
Defined.

(** ** getProducers *)

Lemma other_in_room_spec roomName socketId producerData :
  other_in_room roomName socketId producerData = true ↔
  pd_socketId producerData ≠ socketId ∧ pd_roomName producerData = roomName.
Proof.
  unfold other_in_room.
  rewrite andb_true_iff, !bool_decide_eq_true. done.
Qed.

Lemma collect_producers_from roomName socketId items (acc : list Id) :
  foldl (λ (producerList : list Id) producerData,
    if other_in_room roomName socketId producerData
    then producerList ++ [p_id (pd_producer producerData)]
    else producerList) acc items
  = acc ++ ((λ i, p_id (pd_producer i)) <$>
       filter (λ i, pd_socketId i ≠ socketId ∧ pd_roomName i = roomName)
         items).
Proof.
  revert acc. induction items as [|x items IH]; intros acc; simpl.
  - by rewrite app_nil_r.
  - rewrite IH, filter_cons.
    destruct (other_in_room roomName socketId x) eqn:Hx.
    + apply other_in_room_spec in Hx.
      rewrite decide_True by done. simpl. by rewrite <- app_assoc.
    + rewrite decide_False; [done|].
      intros Hc. apply other_in_room_spec in Hc. congruence.
Qed.

Lemma collect_producers_eq roomName socketId items :
  collect_producers roomName socketId items
  = (λ i, p_id (pd_producer i)) <$>
      filter (λ i, pd_socketId i ≠ socketId ∧ pd_roomName i = roomName) items.
Proof. unfold collect_producers. by rewrite collect_producers_from. Qed.

(** C7.  For a connection whose peer has joined room [r], [getProducers]
    answers with the ids, in registry order, of exactly the producer
    records whose room name is [r] and whose owner is another connection;
    nothing else changes. *)
Theorem getProducers_lists_other_producers_of_room :
  ∀ (st : State) (socket : SocketId) (p : Peer),
    peers st !! socket = Some p →
    on_getProducers socket st
    = Ok tt (log (Callback socket (ProducerList
        ((λ i, p_id (pd_producer i)) <$>
           filter (λ i, pd_socketId i ≠ socket
                        ∧ pd_roomName i = pr_roomName p)
             (producers st)))) st).
Proof.
  intros st socket p Hp. unfold on_getProducers. monad_unfold.
  rewrite Hp. simpl. by rewrite collect_producers_eq.
Qed.

Lemma getProducers_lists_other_producers_of_room_witness :
  on_getProducers "B" conference
  = Ok tt (log (Callback "B" (ProducerList ["pA"])) conference).
Proof.
  apply (getProducers_lists_other_producers_of_room conference "B" peerB).
  vm_compute; reflexivity.
Defined.

(** The scenario of the specification: [A] and [B] join the same room and
    only [A] produces one stream; [B] then gets the one-element list. *)
Example getProducers_scenario :
  trace (run [ JoinRoom "A" "room1" "alice" (Some "R1");
               JoinRoom "B" "room1" "bob" (Some "R2");
               CreateWebRtcTransport "A" false (Some {| t_id := "tA" |});
               TransportProduce "A" "video" (Some "pA");
               GetProducers "B" ] init) !! 4
  = Some (Callback "B" (ProducerList ["pA"])).
Proof. vm_compute; reflexivity. Qed.

(** ** startRecording *)

Lemma find_producer_None id items :
  find_producer id items = None ↔
  ¬ ∃ i, i ∈ items ∧ p_id (pd_producer i) = id.
Proof.
  unfold find_producer. rewrite fmap_None. split.
  - intros Hnone [i [Hi Hid]].
    apply list_elem_of_In in Hi.
    pose proof (find_none _ _ Hnone i Hi) as Hf. simpl in Hf.
    by apply bool_decide_eq_false in Hf.
  - intros Hno.
    destruct (find _ items) as [i|] eqn:Hf; [|done].
    apply find_some in Hf as [Hi Hid].
    apply list_elem_of_In in Hi. apply bool_decide_eq_true in Hid.
    exfalso. eauto.
Qed.

(** A producer id resolves to the producer of a registry record that
    carries this id. *)
Lemma find_producer_Some id items producer :
  find_producer id items = Some producer →
  p_id producer = id ∧ ∃ i, i ∈ items ∧ pd_producer i = producer.
Proof.
  unfold find_producer. intros Hf.
  apply fmap_Some in Hf as (i & Hf & ->).
  apply find_some in Hf as [Hi Hid].
  apply list_elem_of_In in Hi. apply bool_decide_eq_true in Hid. eauto.
Qed.

(** C5.  [startRecording] answers [{error: 'One or both producers not
    found'}] when one of the two ids is the id of no record of the producer
    registry, and [{error: 'Invalid producer kinds. ...'}] when both ids
    resolve but the first not to an audio producer or the second not to a
    video producer.  In both cases the answer is all the handler does: the
    recorder is not called and the registries are as before. *)
Theorem startRecording_rejects_missing_and_wrong_kinds :
  ∀ (st : State) (socket : SocketId) (audioProducerId videoProducerId : Id)
    (recorder : option string),
    ((¬ (∃ i, i ∈ producers st ∧ p_id (pd_producer i) = audioProducerId) ∨
      ¬ (∃ i, i ∈ producers st ∧ p_id (pd_producer i) = videoProducerId)) →
     on_startRecording socket audioProducerId videoProducerId recorder st
     = Ok tt (log (Callback socket
                     (Error "One or both producers not found")) st))
    ∧
    (∀ audioProducer videoProducer,
       find_producer audioProducerId (producers st) = Some audioProducer →
       find_producer videoProducerId (producers st) = Some videoProducer →
       p_kind audioProducer ≠ "audio" ∨ p_kind videoProducer ≠ "video" →
       on_startRecording socket audioProducerId videoProducerId recorder st
       = Ok tt (log (Callback socket (Error
           "Invalid producer kinds. Need one audio and one video producer."))
           st)).
Proof.
  intros st socket a v recorder. split.
  - intros Hmiss. unfold on_startRecording. monad_unfold.
    destruct Hmiss as [Hm|Hm]; apply find_producer_None in Hm; rewrite Hm.
    + done.
    + by destruct (find_producer a (producers st)).
  - intros pa pv Ha Hv Hkind. unfold on_startRecording. monad_unfold.
    rewrite Ha, Hv.
    assert (bool_decide (p_kind pa ≠ "audio")
            || bool_decide (p_kind pv ≠ "video") = true) as ->; [|done].
    apply orb_true_iff. rewrite !bool_decide_eq_true. done.
Qed.

Lemma startRecording_rejects_missing_and_wrong_kinds_witness :
  on_startRecording "B" "pA" "pZ" (Some "file.webm") conference
  = Ok tt (log (Callback "B" (Error "One or both producers not found"))
             conference)
  ∧
  on_startRecording "B" "pA" "pA" (Some "file.webm") conference
  = Ok tt (log (Callback "B" (Error
      "Invalid producer kinds. Need one audio and one video producer."))
      conference).
Proof.
  split.
  - apply (proj1 (startRecording_rejects_missing_and_wrong_kinds
                    conference "B" "pA" "pZ" (Some "file.webm"))).
    right. intros [i [Hi Hid]]. vm_compute in Hi.
    apply list_elem_of_singleton in Hi. subst i. discriminate Hid.
  - apply (proj2 (startRecording_rejects_missing_and_wrong_kinds
                    conference "B" "pA" "pA" (Some "file.webm"))
             {| p_id := "pA"; p_kind := "video" |}
             {| p_id := "pA"; p_kind := "video" |});
      [vm_compute; reflexivity | vm_compute; reflexivity |].
    left. discriminate.
Defined.

(** ** consume *)

Lemma find_consumer_transport_None id items :
  (∀ i, i ∈ items → td_consumer i = true → t_id (td_transport i) ≠ id) →
  find_consumer_transport id items = None.
Proof.
  intros Hno. unfold find_consumer_transport.
  destruct (find _ items) as [i|] eqn:Hf; [|done].
  apply find_some in Hf as [Hi Hid].
  apply list_elem_of_In in Hi. apply andb_true_iff in Hid as [Hc Hid].
  apply bool_decide_eq_true in Hid. by destruct (Hno i Hi Hc).
Qed.

(** C6.  When [serverConsumerTransportId] is the id of no consumer
    transport of the transport registry, [consume] answers
    [{params: {error}}] and does nothing else: no consumer record is added. *)
Theorem consume_unknown_transport_answers_error :
  ∀ (st : State) (socket : SocketId)
    (remoteProducerId serverConsumerTransportId : Id) (canConsume : bool)
    (engine : option Consumer),
    (∀ i, i ∈ transports st → td_consumer i = true →
          t_id (td_transport i) ≠ serverConsumerTransportId) →
    on_consume socket remoteProducerId serverConsumerTransportId canConsume
      engine st
    = Ok tt (log (Callback socket ConsumeError) st).
Proof.
  intros st socket rp ct cc engine Hno. unfold on_consume. monad_unfold.
  destruct (peers st !! socket) as [p|]; [|done].
  destruct (rooms st !! pr_roomName p) as [rm|]; [|done].
  by rewrite (find_consumer_transport_None _ _ Hno).
Qed.

Lemma consume_unknown_transport_answers_error_witness :
  on_consume "B" "pA" "tA" true (Some {| c_id := "c2"; c_kind := "video" |})
    conference
  = Ok tt (log (Callback "B" ConsumeError) conference).
Proof.
  apply consume_unknown_transport_answers_error.
  intros i Hi Hc. vm_compute in Hi.
  apply elem_of_cons in Hi as [->|Hi]; [discriminate Hc|].
  apply list_elem_of_singleton in Hi. subst i. discriminate.
Defined.

(** ** Invariants of the runs without interruption *)

Lemma run_snoc ops op st : run (ops ++ [op]) st = step (run ops st) op.
Proof. unfold run. by rewrite foldl_app. Qed.

Lemma reachable_ind (P : State → Prop) :
  P init →
  (∀ st op, reachable st → P st → P (step st op)) →
  ∀ st, reachable st → P st.
Proof.
  intros Hinit Hstep st [ops ->].
  induction ops as [|op ops IH] using rev_ind; [done|].
  rewrite run_snoc. apply Hstep; [by exists ops | done].
Qed.

Section owners.
Context {A : Type} (owner : A → SocketId).
Implicit Types (ps : gmap string Peer) (items : list A).

Lemma owners_in_filter (P : A → Prop) `{∀ x, Decision (P x)} ps items :
  owners_in owner ps items → owners_in owner ps (filter P items).
Proof.
  intros Hin i Hi. apply list_elem_of_filter in Hi as [_ Hi]. by apply Hin.
Qed.

Lemma owners_in_snoc ps items x :
  owners_in owner ps items → is_Some (ps !! owner x) →
  owners_in owner ps (items ++ [x]).
Proof.
  intros Hin Hx i Hi. apply elem_of_app in Hi as [Hi|Hi]; [by apply Hin|].
  apply list_elem_of_singleton in Hi. by subst i.
Qed.

Lemma owners_in_insert ps items s p :
  owners_in owner ps items → owners_in owner (<[s:=p]> ps) items.
Proof.
  intros Hin i Hi. destruct (decide (s = owner i)) as [->|Hne].
  - rewrite lookup_insert_eq. eauto.
  - rewrite lookup_insert_ne by done. by apply Hin.
Qed.

Lemma owners_in_delete ps items s :
  owners_in owner ps items →
  owners_in owner (delete s ps) (filter (λ i, owner i ≠ s) items).
Proof.
  intros Hin i Hi. apply list_elem_of_filter in Hi as [Hne Hi].
  rewrite lookup_delete_ne by done. by apply Hin.
Qed.

(** A socket without a peer record owns nothing. *)
Lemma owners_in_none ps items s :
  owners_in owner ps items → ps !! s = None →
  filter (λ i, owner i = s) items = [].
Proof.
  intros Hin Hs. apply elem_of_nil_inv. intros i Hi.
  apply list_elem_of_filter in Hi as [<- Hi].
  apply Hin in Hi as [p Hp]. congruence.
Qed.
End owners.

Lemma socket_ok_insert ps s p :
  socket_ok ps → pr_socket p = s → socket_ok (<[s:=p]> ps).
Proof.
  intros Hok Hp s' p' Hl. destruct (decide (s = s')) as [->|Hne].
  - rewrite lookup_insert_eq in Hl. congruence.
  - rewrite lookup_insert_ne in Hl by done. by apply Hok.
Qed.

Lemma socket_ok_delete ps s : socket_ok ps → socket_ok (delete s ps).
Proof.
  intros Hok s' p' Hl. apply lookup_delete_Some in Hl as [_ Hl]. by apply Hok.
Qed.

Lemma rooms_in_insert_room rs ps r rm :
  rooms_in rs ps → rooms_in (<[r:=rm]> rs) ps.
Proof.
  intros Hin s p Hp. destruct (decide (r = pr_roomName p)) as [->|Hne].
  - rewrite lookup_insert_eq. eauto.
  - rewrite lookup_insert_ne by done. by eapply Hin.
Qed.

Lemma rooms_in_insert_peer rs ps s p :
  rooms_in rs ps → is_Some (rs !! pr_roomName p) → rooms_in rs (<[s:=p]> ps).
Proof.
  intros Hin Hr s' p' Hl. destruct (decide (s = s')) as [->|Hne].
  - rewrite lookup_insert_eq in Hl. congruence.
  - rewrite lookup_insert_ne in Hl by done. by eapply Hin.
Qed.

Lemma rooms_in_delete rs ps s : rooms_in rs ps → rooms_in rs (delete s ps).
Proof.
  intros Hin s' p' Hl. apply lookup_delete_Some in Hl as [_ Hl].
  by eapply Hin.
Qed.

Lemma Inv_init : Inv init.
Proof.
  split; simpl.
  - intros s p Hl. by rewrite lookup_empty in Hl.
  - intros i Hi. by apply elem_of_nil in Hi.
  - intros i Hi. by apply elem_of_nil in Hi.
  - intros i Hi. by apply elem_of_nil in Hi.
  - intros s p Hl. by rewrite lookup_empty in Hl.
Qed.

Lemma Inv_logs es st : Inv st → Inv (logs es st).
Proof. intros [? ? ? ? ?]. by split. Qed.

Lemma Inv_log e st : Inv st → Inv (log e st).
Proof. intros [? ? ? ? ?]. by split. Qed.

Lemma on_disconnect_cleanup_Inv socket st :
  Inv st → Inv (state_of (on_disconnect_cleanup socket st)).
Proof.
  intros [Hs Ht Hp Hc Hr]. unfold on_disconnect_cleanup. monad_unfold.
  repeat (rewrite removeItems_eq; simpl).
  destruct (peers st !! socket) as [p|] eqn:Hpeer; simpl.
  - destruct (rooms st !! pr_roomName p) as [rm|] eqn:Hroom; simpl.
    + split; simpl;
        eauto using socket_ok_delete, owners_in_delete, rooms_in_delete,
          rooms_in_insert_room.
    + split; simpl;
        eauto using socket_ok_delete, owners_in_delete, rooms_in_delete.
  - split; simpl; eauto using owners_in_filter.
Qed.

Lemma on_disconnect_cleanup_Ok socket st st' :
  on_disconnect_cleanup socket st = Ok tt st' →
  filter (λ i, pd_socketId i = socket) (producers st') = [].
Proof.
  unfold on_disconnect_cleanup. monad_unfold.
  repeat (rewrite removeItems_eq; simpl).
  destruct (peers st !! socket) as [p|]; simpl; [|done].
  destruct (rooms st !! pr_roomName p) as [rm|]; simpl; [|done].
  intros [= <-]. simpl. apply filter_ne_none.
Qed.

Lemma on_disconnect_Inv socket st :
  Inv st → Inv (state_of (on_disconnect socket st)).
Proof.
  intros HI. apply (on_disconnect_cleanup_Inv socket) in HI.
  unfold on_disconnect, bind.
  destruct (on_disconnect_cleanup socket st) as [[] st'|st'] eqn:Hc; [|done].
  apply on_disconnect_cleanup_Ok in Hc.
  by rewrite on_disconnect_recordings_none.
Qed.

Lemma on_joinRoom_Inv socket roomName userName engine st :
  Inv st → Inv (state_of (on_joinRoom socket roomName userName engine st)).
Proof.
  intros [Hs Ht Hp Hc Hr]. unfold on_joinRoom, createRoom. monad_unfold.
  destruct (rooms st !! roomName) as [rm|] eqn:Hroom; simpl;
    [|destruct (inherited roomName); simpl; [by split|];
      destruct engine as [router1|]; simpl; [|by split]];
    (split; simpl; eauto using owners_in_insert;
     [ by apply socket_ok_insert
     | apply rooms_in_insert_peer; simpl;
       [by apply rooms_in_insert_room | rewrite lookup_insert_eq; eauto] ]).
Qed.

Lemma addTransport_joined transport roomName consumer socket p st :
  peers st !! socket = Some p →
  addTransport transport roomName consumer socket st
  = Ok tt (set_peers
      (<[socket := peer_with_transport p (t_id transport)]> (peers st))
      (set_transports (transports st ++
         [{| td_socketId := socket; td_transport := transport;
             td_roomName := roomName; td_consumer := consumer |}]) st)).
Proof. intros Hp. unfold addTransport. monad_unfold. simpl. by rewrite Hp. Qed.

Lemma addProducer_joined producer roomName socket p st :
  peers st !! socket = Some p →
  addProducer producer roomName socket st
  = Ok tt (set_peers
      (<[socket := peer_with_producer p (p_id producer)]> (peers st))
      (set_producers (producers st ++
         [{| pd_socketId := socket; pd_producer := producer;
             pd_roomName := roomName |}]) st)).
Proof. intros Hp. unfold addProducer. monad_unfold. simpl. by rewrite Hp. Qed.

Lemma addConsumer_joined consumer roomName socket p st :
  peers st !! socket = Some p →
  addConsumer consumer roomName socket st
  = Ok tt (set_peers
      (<[socket := peer_with_consumer p (c_id consumer)]> (peers st))
      (set_consumers (consumers st ++
         [{| cd_socketId := socket; cd_consumer := consumer;
             cd_roomName := roomName |}]) st)).
Proof. intros Hp. unfold addConsumer. monad_unfold. simpl. by rewrite Hp. Qed.

(** A loop whose body changes nothing but the trace changes nothing but
    the trace, whether it ends or throws. *)
Lemma forEach_logs {A} (f : A → M unit) (items : list A) (st : State) :
  (∀ x st, ∃ es, state_of (f x st) = logs es st) →
  ∃ es, state_of (forEach f items st) = logs es st.
Proof.
  intros Hf. revert st. induction items as [|x items IH]; intros st; simpl.
  - exists []. by rewrite logs_nil.
  - unfold bind. destruct (Hf x st) as [es Hes].
    destruct (f x st) as [[] st'|st']; simpl in Hes; subst st'.
    + destruct (IH (logs es st)) as [es' Hes']. exists (es ++ es').
      by rewrite Hes', logs_logs.
    + by exists es.
Qed.

Lemma informConsumers_logs roomName socketId id st :
  ∃ es, state_of (informConsumers roomName socketId id st) = logs es st.
Proof.
  unfold informConsumers, bind at 1, get. apply forEach_logs.
  intros x st0. destruct (other_in_room roomName socketId x).
  - monad_unfold. destruct (peers st0 !! pd_socketId x) as [p|]; simpl.
    + by eexists [_].
    + exists []. by rewrite logs_nil.
  - exists []. by rewrite logs_nil.
Qed.

(** When the owners of the producer records have their peer records, the
    fan-out returns, having sent one notification for every producer record
    of another socket in the room, to the owner of the record. *)
Lemma informConsumers_eq roomName socketId id st :
  socket_ok (peers st) →
  owners_in pd_socketId (peers st) (producers st) →
  informConsumers roomName socketId id st
  = Ok tt (logs ((λ i, Emit (pd_socketId i) "new-producer" id) <$>
      filter (λ i, pd_socketId i ≠ socketId ∧ pd_roomName i = roomName)
        (producers st)) st).
Proof.
  intros Hs. unfold informConsumers, bind at 1, get.
  generalize (producers st) as items.
  assert (∀ items st0, peers st0 = peers st →
            owners_in pd_socketId (peers st) items →
    forEach (λ producerData,
      if other_in_room roomName socketId producerData
      then let* p := the_peer (pd_socketId producerData) in
           emit (Emit (pr_socket p) "new-producer" id)
      else ret tt) items st0
    = Ok tt (logs ((λ i, Emit (pd_socketId i) "new-producer" id) <$>
        filter (λ i, pd_socketId i ≠ socketId ∧ pd_roomName i = roomName)
          items) st0)) as Hloop; [|by eauto].
  induction items as [|x items IH]; intros st0 Hst0 Hown; simpl.
  - by rewrite logs_nil.
  - assert (owners_in pd_socketId (peers st) items) as Hown'.
    { intros i Hi. apply Hown. by right. }
    rewrite filter_cons. unfold bind at 1.
    destruct (other_in_room roomName socketId x) eqn:Hx.
    + apply other_in_room_spec in Hx. rewrite decide_True by done.
      destruct (Hown x) as [p Hp]; [by left|].
      monad_unfold. rewrite Hst0, Hp. simpl.
      rewrite IH by done. rewrite (Hs _ _ Hp). by rewrite logs_log.
    + rewrite decide_False.
      * unfold ret at 1. by rewrite IH.
      * intros Hc. apply other_in_room_spec in Hc. congruence.
Qed.

Lemma Inv_with_transport transport roomName consumer socket p st :
  Inv st → peers st !! socket = Some p →
  Inv (set_peers
      (<[socket := peer_with_transport p (t_id transport)]> (peers st))
      (set_transports (transports st ++
         [{| td_socketId := socket; td_transport := transport;
             td_roomName := roomName; td_consumer := consumer |}]) st)).
Proof.
  intros [Hs Ht Hp Hc Hr] Hpeer. split; simpl.
  - apply socket_ok_insert; [done|]. simpl. by eapply Hs.
  - apply owners_in_insert, owners_in_snoc; [done|]. simpl. eauto.
  - by apply owners_in_insert.
  - by apply owners_in_insert.
  - apply rooms_in_insert_peer; [done|]. simpl. by eapply Hr.
Qed.

Lemma Inv_with_producer producer roomName socket p st :
  Inv st → peers st !! socket = Some p →
  Inv (set_peers
      (<[socket := peer_with_producer p (p_id producer)]> (peers st))
      (set_producers (producers st ++
         [{| pd_socketId := socket; pd_producer := producer;
             pd_roomName := roomName |}]) st)).
Proof.
  intros [Hs Ht Hp Hc Hr] Hpeer. split; simpl.
  - apply socket_ok_insert; [done|]. simpl. by eapply Hs.
  - by apply owners_in_insert.
  - apply owners_in_insert, owners_in_snoc; [done|]. simpl. eauto.
  - by apply owners_in_insert.
  - apply rooms_in_insert_peer; [done|]. simpl. by eapply Hr.
Qed.

Lemma Inv_with_consumer consumer roomName socket p st :
  Inv st → peers st !! socket = Some p →
  Inv (set_peers
      (<[socket := peer_with_consumer p (c_id consumer)]> (peers st))
      (set_consumers (consumers st ++
         [{| cd_socketId := socket; cd_consumer := consumer;
             cd_roomName := roomName |}]) st)).
Proof.
  intros [Hs Ht Hp Hc Hr] Hpeer. split; simpl.
  - apply socket_ok_insert; [done|]. simpl. by eapply Hs.
  - by apply owners_in_insert.
  - by apply owners_in_insert.
  - apply owners_in_insert, owners_in_snoc; [done|]. simpl. eauto.
  - apply rooms_in_insert_peer; [done|]. simpl. by eapply Hr.
Qed.

Lemma on_createWebRtcTransport_Inv socket consumer engine st :
  Inv st → Inv (state_of (on_createWebRtcTransport socket consumer engine st)).
Proof.
  intros HI. unfold on_createWebRtcTransport. monad_unfold.
  destruct (peers st !! socket) as [p|] eqn:Hpeer; simpl; [|done].
  destruct (rooms st !! pr_roomName p) as [rm|]; simpl; [|done].
  destruct engine as [transport|]; simpl; [|done].
  rewrite (addTransport_joined _ _ _ _ p) by done. cbn [state_of].
  apply Inv_with_transport; [by apply Inv_log | done].
Qed.

Lemma on_transport_produce_Inv socket kind engine st :
  Inv st → Inv (state_of (on_transport_produce socket kind engine st)).
Proof.
  intros HI. unfold on_transport_produce, getTransport. monad_unfold.
  destruct (filter _ (transports st)) as [|producerTransport ?]; simpl;
    [done|].
  destruct engine as [id|]; simpl; [|done].
  destruct (peers st !! socket) as [p|] eqn:Hpeer; simpl; [|done].
  rewrite (addProducer_joined _ _ _ p) by done. simpl.
  match goal with
  | |- context [informConsumers ?r ?s ?i ?st1] =>
      destruct (informConsumers_logs r s i st1) as [es Hes];
      destruct (informConsumers r s i st1) as [[] st2|st2];
      simpl in Hes; subst st2; cbn [state_of]
  end.
  - by apply Inv_log, Inv_logs, Inv_with_producer.
  - by apply Inv_logs, Inv_with_producer.
Qed.

Lemma on_consume_Inv socket remoteProducerId serverConsumerTransportId
    canConsume engine st :
  Inv st →
  Inv (state_of (on_consume socket remoteProducerId serverConsumerTransportId
                   canConsume engine st)).
Proof.
  intros HI. unfold on_consume. monad_unfold.
  destruct (peers st !! socket) as [p|] eqn:Hpeer; simpl;
    [|by apply Inv_log].
  destruct (rooms st !! pr_roomName p) as [rm|]; simpl; [|by apply Inv_log].
  destruct (find_consumer_transport _ _) as [transportData|]; simpl;
    [|by apply Inv_log].
  destruct canConsume; simpl; [|done].
  destruct engine as [consumer|]; simpl; [|by apply Inv_log].
  rewrite (addConsumer_joined _ _ _ p) by done. cbn [state_of].
  by apply Inv_log, Inv_with_consumer.
Qed.

Lemma on_producerclose_Inv socket remoteProducerId consumerTransport consumer
    st :
  Inv st →
  Inv (state_of (on_producerclose socket remoteProducerId consumerTransport
                   consumer st)).
Proof.
  intros [Hs Ht Hp Hc Hr]. unfold on_producerclose. monad_unfold. simpl.
  split; simpl; eauto using owners_in_filter.
Qed.

(** The handlers that write nothing but the trace. *)
Lemma on_getProducers_logs socket st :
  ∃ es, state_of (on_getProducers socket st) = logs es st.
Proof.
  unfold on_getProducers. monad_unfold.
  destruct (peers st !! socket) as [p|]; simpl.
  - by eexists [_].
  - exists []. by rewrite logs_nil.
Qed.

Lemma on_transport_connect_logs socket st :
  ∃ es, state_of (on_transport_connect socket st) = logs es st.
Proof.
  unfold on_transport_connect, getTransport. monad_unfold.
  destruct (filter _ (transports st)) as [|producerTransport ?]; simpl.
  - exists []. by rewrite logs_nil.
  - by eexists [_].
Qed.

Lemma on_transport_recv_connect_logs socket serverConsumerTransportId engine
    st :
  ∃ es, state_of (on_transport_recv_connect socket serverConsumerTransportId
                    engine st) = logs es st.
Proof.
  unfold on_transport_recv_connect. monad_unfold.
  destruct (find_consumer_transport _ _) as [transportData|]; simpl.
  - destruct engine; by eexists [_].
  - exists []. by rewrite logs_nil.
Qed.

Lemma on_startRecording_logs socket audioProducerId videoProducerId recorder
    st :
  ∃ es, state_of (on_startRecording socket audioProducerId videoProducerId
                    recorder st) = logs es st.
Proof.
  unfold on_startRecording. monad_unfold.
  destruct (find_producer audioProducerId _) as [audioProducer|]; simpl;
    [|by eexists [_]].
  destruct (find_producer videoProducerId _) as [videoProducer|]; simpl;
    [|by eexists [_]].
  destruct (_ || _); simpl; [by eexists [_]|].
  destruct (peers st !! socket) as [p|]; simpl; [|by eexists [_]].
  destruct recorder as [fileName|]; simpl;
    rewrite !log_logs, logs_logs; by eexists.
Qed.

Lemma step_Inv st op : Inv st → Inv (step st op).
Proof.
  intros HI. unfold step. destruct op; simpl.
  - by apply on_disconnect_Inv.
  - by apply on_joinRoom_Inv.
  - by apply on_createWebRtcTransport_Inv.
  - destruct (on_getProducers_logs socket st) as [es ->]. by apply Inv_logs.
  - destruct (on_transport_connect_logs socket st) as [es ->].
    by apply Inv_logs.
  - by apply on_transport_produce_Inv.
  - destruct (on_transport_recv_connect_logs socket
                serverConsumerTransportId engine st) as [es ->].
    by apply Inv_logs.
  - by apply on_consume_Inv.
  - by apply on_producerclose_Inv.
  - destruct (on_startRecording_logs socket audioProducerId videoProducerId
                recorder st) as [es ->].
    by apply Inv_logs.
Qed.

Lemma reachable_Inv st : reachable st → Inv st.
Proof.
  apply reachable_ind; [apply Inv_init|]. intros. by apply step_Inv.
Qed.

(** ** Messages of a connection that has no peer record *)

Lemma getTransport_none socket st :
  filter (λ i, td_socketId i = socket) (transports st) = [] →
  getTransport socket st = Throw st.
Proof.
  intros Hnone. unfold getTransport. monad_unfold.
  assert (filter (λ i, td_socketId i = socket ∧ td_consumer i = false)
            (transports st) = []) as ->; [|done].
  apply elem_of_nil_inv. intros i Hi.
  apply list_elem_of_filter in Hi as [[Hs _] Hi].
  assert (i ∈ filter (λ i, td_socketId i = socket) (transports st)) as Hin
    by by apply list_elem_of_filter.
  rewrite Hnone in Hin. by apply elem_of_nil in Hin.
Qed.

(** C3, as the code has it.  In a reachable state, for a connection that
    has no peer record: [createWebRtcTransport], [getProducers],
    [transport-connect] and [transport-produce] throw, answer nothing and
    leave the state as it is; [consume] answers [{params: {error}}] and
    [startRecording] answers with an error, both through their
    [try]/[catch], and change nothing else. *)
Theorem handlers_without_peer :
  ∀ (st : State) (socket : SocketId),
    reachable st →
    peers st !! socket = None →
    (∀ consumer engine,
       on_createWebRtcTransport socket consumer engine st = Throw st) ∧
    on_getProducers socket st = Throw st ∧
    on_transport_connect socket st = Throw st ∧
    (∀ kind engine, on_transport_produce socket kind engine st = Throw st) ∧
    (∀ remoteProducerId serverConsumerTransportId canConsume engine,
       on_consume socket remoteProducerId serverConsumerTransportId
         canConsume engine st
       = Ok tt (log (Callback socket ConsumeError) st)) ∧
    (∀ audioProducerId videoProducerId recorder,
       ∃ r, on_startRecording socket audioProducerId videoProducerId
              recorder st = Ok tt (log (Callback socket r) st)
            ∧ (r = CaughtError ∨ ∃ msg, r = Error msg)).
Proof.
  intros st socket Hreach Hpeer.
  pose proof (reachable_Inv st Hreach) as [_ Ht _ _ _].
  pose proof (owners_in_none _ _ _ _ Ht Hpeer) as Hnone.
  repeat split.
  - intros consumer engine. unfold on_createWebRtcTransport. monad_unfold.
    by rewrite Hpeer.
  - unfold on_getProducers. monad_unfold. by rewrite Hpeer.
  - unfold on_transport_connect, bind.
    by rewrite getTransport_none.
  - intros kind engine. unfold on_transport_produce, bind.
    by rewrite getTransport_none.
  - intros rp ct cc engine. unfold on_consume. monad_unfold.
    by rewrite Hpeer.
  - intros a v recorder. unfold on_startRecording. monad_unfold.
    destruct (find_producer a _) as [pa|]; [|by eauto 6].
    destruct (find_producer v _) as [pv|]; [|by eauto 6].
    destruct (_ || _); [by eauto 6|].
    rewrite Hpeer. eauto.
Qed.

Lemma handlers_without_peer_witness :
  on_getProducers "C" conference = Throw conference.
Proof.
  refine (proj1 (proj2 (handlers_without_peer conference "C" _ _))).
  - by exists conference_ops.
  - vm_compute; reflexivity.
Defined.

(** The claim C3 fails: before [joinRoom], [getProducers] throws and sends
    no answer at all. *)
Lemma getProducers_before_join_throws :
  reachable init ∧ peers init !! "B" = None ∧
  on_getProducers "B" init = Throw init ∧
  ¬ ∃ r st', on_getProducers "B" init = Ok tt st' ∧ Callback "B" r ∈ trace st'.
Proof.
  split; [by exists []|]. split; [done|]. split; [done|].
  intros (r & st' & Hok & _). discriminate Hok.
Qed.

(** ** transport-produce *)

Lemma getTransport_found socket st :
  (∃ i, i ∈ transports st ∧ td_socketId i = socket ∧ td_consumer i = false) →
  ∃ transport, getTransport socket st = Ok transport st.
Proof.
  intros (i & Hi & Hs & Hc). unfold getTransport. monad_unfold.
  destruct (filter _ (transports st)) as [|producerTransport rest] eqn:Hf.
  - assert (i ∈ filter (λ i, td_socketId i = socket ∧ td_consumer i = false)
              (transports st)) as Hin by by apply list_elem_of_filter.
    rewrite Hf in Hin. by apply elem_of_nil in Hin.
  - eauto.
Qed.

Lemma filter_others_snoc roomName socket producer (items : list ProducerData) :
  filter (λ i, pd_socketId i ≠ socket ∧ pd_roomName i = roomName)
    (items ++ [{| pd_socketId := socket; pd_producer := producer;
                  pd_roomName := roomName |}])
  = filter (λ i, pd_socketId i ≠ socket ∧ pd_roomName i = roomName) items.
Proof.
  rewrite filter_app, filter_cons, decide_False, filter_nil, app_nil_r;
    [done|].
  simpl. by intros [Hne _].
Qed.

(** The state after a successful [transport-produce]. *)
Lemma on_transport_produce_joined socket kind id p st :
  Inv st →
  (∃ i, i ∈ transports st ∧ td_socketId i = socket ∧ td_consumer i = false) →
  peers st !! socket = Some p →
  on_transport_produce socket kind (Some id) st
  = Ok tt
      (log (Callback socket
              (Produced id (1 <? S (length (producers st)))))
         (logs ((λ i, Emit (pd_socketId i) "new-producer" id) <$>
                  filter (λ i, pd_socketId i ≠ socket
                               ∧ pd_roomName i = pr_roomName p)
                    (producers st))
            (set_peers (<[socket := peer_with_producer p id]> (peers st))
               (set_producers (producers st ++
                  [{| pd_socketId := socket;
                      pd_producer := {| p_id := id; p_kind := kind |};
                      pd_roomName := pr_roomName p |}]) st)))).
Proof.
  intros HI Hsend Hpeer.
  destruct (getTransport_found _ _ Hsend) as [transport Hget].
  unfold on_transport_produce, bind at 1. rewrite Hget.
  monad_unfold. rewrite Hpeer.
  rewrite (addProducer_joined _ _ _ p) by done.
  pose proof (Inv_with_producer {| p_id := id; p_kind := kind |}
                (pr_roomName p) socket p st HI Hpeer) as [Hs _ Hp _ _].
  rewrite informConsumers_eq by done.
  cbn [producers set_peers set_producers logs p_id].
  rewrite filter_others_snoc.
  by rewrite length_app, Nat.add_1_r.
Qed.




(** Whenever [transport-produce] returns, the engine has answered, the
    caller has a peer record, and the state is the old one with the new
    producer registered, some notifications sent and the answer sent. *)
Lemma on_transport_produce_Ok socket kind engine st st' :
  on_transport_produce socket kind engine st = Ok tt st' →
  ∃ id p es,
    engine = Some id ∧ peers st !! socket = Some p ∧
    st' = log (Callback socket
                 (Produced id (1 <? S (length (producers st)))))
            (logs es
               (set_peers (<[socket := peer_with_producer p id]> (peers st))
                  (set_producers (producers st ++
                     [{| pd_socketId := socket;
                         pd_producer := {| p_id := id; p_kind := kind |};
                         pd_roomName := pr_roomName p |}]) st))).
Proof.
  unfold on_transport_produce, getTransport. monad_unfold.
  destruct (filter _ (transports st)) as [|producerTransport ?]; [done|].
  destruct engine as [id|]; [|done].
  destruct (peers st !! socket) as [p|] eqn:Hpeer; [|done].
  rewrite (addProducer_joined _ _ _ p) by done.
  match goal with
  | |- context [informConsumers ?r ?s ?i ?st1] =>
      destruct (informConsumers_logs r s i st1) as [es Hes];
      destruct (informConsumers r s i st1) as [[] st2|st2];
      simpl in Hes; subst st2; [|done]
  end.
  intros [= <-]. exists id, p, es. repeat split.
  cbn [producers set_peers set_producers logs].
  by rewrite length_app, Nat.add_1_r.
Qed.

(** C10.  Whenever [transport-produce] returns, its answer is the last
    thing sent, and the [producersExist] flag of the answer is true exactly
    when the producer registry, which now holds the new producer, has more
    than one record, whatever their rooms and owners.  The flag can so be
    true when every producer in the registry is the caller's own. *)
Theorem producersExist_counts_the_whole_registry :
  (∀ (st st' : State) (socket : SocketId) (kind : string)
     (engine : option Id),
     on_transport_produce socket kind engine st = Ok tt st' →
     ∃ id producersExist,
       engine = Some id ∧
       last (trace st') = Some (Callback socket (Produced id producersExist)) ∧
       length (producers st') = S (length (producers st)) ∧
       (producersExist = true ↔ 1 < length (producers st')))
  ∧
  (∃ (st st' : State) (socket : SocketId) (kind : string) (id : Id),
     reachable st ∧
     on_transport_produce socket kind (Some id) st = Ok tt st' ∧
     last (trace st') = Some (Callback socket (Produced id true)) ∧
     ∀ i, i ∈ producers st' → pd_socketId i = socket).
Proof.
  split.
  - intros st st' socket kind engine Hok.
    apply on_transport_produce_Ok in Hok as (id & p & es & -> & Hpeer & ->).
    exists id, (1 <? S (length (producers st))).
    split; [done|]. simpl. rewrite last_snoc, length_app. simpl.
    rewrite Nat.add_1_r. split; [done|]. split; [done|].
    apply Nat.ltb_lt.
  - exists (run [ JoinRoom "A" "room1" "alice" (Some "R1");
                  CreateWebRtcTransport "A" false (Some {| t_id := "tA" |});
                  TransportProduce "A" "audio" (Some "pA1") ] init).
    eexists _, "A", "video", "pA2".
    split; [by eexists|]. split; [vm_compute; reflexivity|].
    split; [vm_compute; reflexivity|].
    intros i Hi. vm_compute in Hi.
    repeat (apply elem_of_cons in Hi as [->|Hi]; [done|]).
    by apply elem_of_nil in Hi.
Qed.

Lemma producersExist_counts_the_whole_registry_witness :
  ∃ id producersExist,
    Some "pA2" = Some id ∧
    last (trace (state_of
            (on_transport_produce "A" "audio" (Some "pA2") conference)))
    = Some (Callback "A" (Produced id producersExist)) ∧
    length (producers (state_of
              (on_transport_produce "A" "audio" (Some "pA2") conference)))
    = S (length (producers conference)) ∧
    (producersExist = true ↔
     1 < length (producers (state_of
               (on_transport_produce "A" "audio" (Some "pA2") conference)))).
Proof.
  apply (proj1 producersExist_counts_the_whole_registry conference
           (state_of (on_transport_produce "A" "audio" (Some "pA2")
                        conference))
           "A" "audio" (Some "pA2")).
  vm_compute; reflexivity.
Defined.

(** ** joinRoom *)

(** [joinRoom] for a registered room: the engine is not asked. *)
Lemma on_joinRoom_registered socket roomName userName engine rm st :
  rooms st !! roomName = Some rm →
  on_joinRoom socket roomName userName engine st
  = Ok tt (log (Callback socket (RtpCapabilities (r_router rm)))
      (set_peers (<[socket := fresh_peer socket roomName userName]> (peers st))
         (set_rooms (<[roomName :=
            {| r_router := r_router rm;
               r_peers := r_peers rm ++ [socket] |}]> (rooms st)) st))).
Proof.
  intros Hroom. unfold on_joinRoom, createRoom. monad_unfold.
  by rewrite Hroom.
Qed.

(** [joinRoom] for a new room, with the router the engine creates. *)
Lemma on_joinRoom_new socket roomName userName router1 st :
  rooms st !! roomName = None →
  inherited roomName = false →
  on_joinRoom socket roomName userName (Some router1) st
  = Ok tt (log (Callback socket (RtpCapabilities router1))
      (set_peers (<[socket := fresh_peer socket roomName userName]> (peers st))
         (set_rooms (<[roomName :=
            {| r_router := router1; r_peers := [socket] |}]> (rooms st)) st))).
Proof.
  intros Hroom Hown. unfold on_joinRoom, createRoom. monad_unfold.
  by rewrite Hroom, Hown.
Qed.

Lemma on_joinRoom_inherited socket roomName userName engine st :
  rooms st !! roomName = None →
  inherited roomName = true →
  on_joinRoom socket roomName userName engine st = Throw st.
Proof.
  intros Hroom Hown. unfold on_joinRoom, createRoom. monad_unfold.
  by rewrite Hroom, Hown.
Qed.

Lemma on_joinRoom_rejected socket roomName userName st :
  rooms st !! roomName = None →
  on_joinRoom socket roomName userName None st = Throw st.
Proof.
  intros Hroom. unfold on_joinRoom, createRoom. monad_unfold.
  rewrite Hroom. by destruct (inherited roomName).
Qed.

(** Whenever [joinRoom] returns, the room is registered and the socket is
    the last of its members. *)
Lemma on_joinRoom_Ok socket roomName userName engine st st' :
  on_joinRoom socket roomName userName engine st = Ok tt st' →
  ∃ rm', rooms st' !! roomName = Some rm' ∧
         r_peers rm' = members st roomName ++ [socket].
Proof.
  unfold members.
  destruct (rooms st !! roomName) as [rm|] eqn:Hroom.
  - rewrite (on_joinRoom_registered _ _ _ _ rm) by done. intros [= <-].
    simpl. rewrite lookup_insert_eq. eauto.
  - destruct (inherited roomName) eqn:Hown;
      [by rewrite on_joinRoom_inherited|].
    destruct engine as [router1|].
    + rewrite on_joinRoom_new by done. intros [= <-].
      simpl. rewrite lookup_insert_eq. eauto.
    + by rewrite on_joinRoom_rejected.
Qed.

Lemma occurrences_app socket l1 l2 :
  occurrences socket (l1 ++ l2) = occurrences socket l1 + occurrences socket l2.
Proof. unfold occurrences. by rewrite filter_app, length_app. Qed.

Lemma occurrences_filter_other socket other l :
  other ≠ socket →
  occurrences socket (filter (λ id, id ≠ other) l) = occurrences socket l.
Proof.
  intros Hne. unfold occurrences. f_equal.
  induction l as [|x l IH]; [done|].
  rewrite !filter_cons. destruct (decide (x ≠ other)) as [Hx|Hx].
  - rewrite filter_cons. destruct (decide (x = socket)); by rewrite IH.
  - rewrite decide_False; [done|]. intros ->. by apply Hx.
Qed.

(** The claim C2 fails: after two [joinRoom] of the same socket for the
    same room, the socket is twice in the member list. *)
Lemma rejoin_twice_in_member_list :
  let st := run [ JoinRoom "A" "room1" "alice" (Some "R1");
                  JoinRoom "A" "room1" "alice" (Some "R1") ] init in
  members st "room1" = ["A"; "A"] ∧
  occurrences "A" (members st "room1") ≠ 1.
Proof. split; [vm_compute; reflexivity | vm_compute; discriminate]. Qed.

(** C9, as the code has it.  A [joinRoom] of a connection that already has
    a peer record, for a registered room, returns: it answers with the
    capabilities of the room's router, and files a new peer record with the
    room asked for and empty id lists in place of the old one, while the
    registries keep their records. *)
Theorem rejoin_replaces_peer_record :
  ∀ (st : State) (socket : SocketId) (p : Peer) (roomName : RoomName)
    (rm : Room) (userName : string) (engine : option Router),
    peers st !! socket = Some p →
    rooms st !! roomName = Some rm →
    ∃ st',
      on_joinRoom socket roomName userName engine st = Ok tt st' ∧
      trace st' = trace st ++ [Callback socket (RtpCapabilities (r_router rm))] ∧
      peers st' !! socket = Some (fresh_peer socket roomName userName) ∧
      transports st' = transports st ∧
      producers st' = producers st ∧
      consumers st' = consumers st.
Proof.
  intros st socket p roomName rm userName engine _ Hroom.
  eexists. split; [by apply (on_joinRoom_registered _ _ _ _ rm)|].
  simpl. by rewrite lookup_insert_eq.
Qed.

Lemma rejoin_replaces_peer_record_witness :
  ∃ st',
    on_joinRoom "A" "room1" "alice" None conference = Ok tt st' ∧
    trace st' = trace conference ++ [Callback "A" (RtpCapabilities "R1")] ∧
    peers st' !! "A" = Some (fresh_peer "A" "room1" "alice") ∧
    transports st' = transports conference ∧
    producers st' = producers conference ∧
    consumers st' = consumers conference.
Proof.
  apply (rejoin_replaces_peer_record conference "A" peerA "room1" room1);
    vm_compute; reflexivity.
Defined.

(** The claim C9 fails: the second [joinRoom] of [A] is answered like the
    first, and the peer record of [A] loses its id lists. *)
Lemma rejoin_is_answered_and_resets :
  ∃ st',
    peers conference !! "A" = Some peerA ∧
    on_joinRoom "A" "room1" "alice" None conference = Ok tt st' ∧
    last (trace st') = Some (Callback "A" (RtpCapabilities "R1")) ∧
    peers st' !! "A" = Some (fresh_peer "A" "room1" "alice") ∧
    peers st' !! "A" ≠ peers conference !! "A".
Proof.
  eexists. split; [vm_compute; reflexivity|].
  split; [vm_compute; reflexivity|].
  split; [vm_compute; reflexivity|].
  split; [vm_compute; reflexivity|].
  vm_compute. discriminate.
Qed.

(** ** Consistency of the registries with the peers *)

Section registry.
Context {A : Type} (owner : A → SocketId) (ident : A → Id)
  (ids : Peer → list Id).
Implicit Types (ps : gmap string Peer) (items : list A).










End registry.


(** * Further properties of the handlers *)

Lemma sent_logs es st st1 :
  trace st1 = trace st → sent st (logs es st1) = es.
Proof. intros Heq. unfold sent. simpl. by rewrite Heq, drop_app_length. Qed.

Lemma sent_log e st st1 :
  trace st1 = trace st → sent st (log e st1) = [e].
Proof. apply (sent_logs [e]). Qed.

Lemma sent_refl st : sent st st = [].
Proof. unfold sent. apply drop_all. Qed.

Lemma filter_ne_all {A} (f : A → SocketId) (s : SocketId) (l : list A) :
  filter (λ x, f x = s) l = [] → filter (λ x, f x ≠ s) l = l.
Proof.
  induction l as [|x l IH]; [done|].
  rewrite !filter_cons. destruct (decide (f x = s)) as [Heq|Hne]; [done|].
  intros Hnone. rewrite decide_True by done. by rewrite IH.
Qed.

(** A socket that has no peer record has nothing to remove. *)
Lemma removed_unknown socket st :
  Inv st → peers st !! socket = None →
  removed socket st = st ∧ closes socket st = [].
Proof.
  intros [_ Ht Hp Hc _] Hnone.
  pose proof (owners_in_none _ _ _ _ Ht Hnone) as Hnt.
  pose proof (owners_in_none _ _ _ _ Hp Hnone) as Hnp.
  pose proof (owners_in_none _ _ _ _ Hc Hnone) as Hnc.
  split.
  - unfold removed, set_transports, set_producers, set_consumers. simpl.
    rewrite !filter_ne_all by done. by destruct st.
  - unfold closes. by rewrite Hnt, Hnp, Hnc.
Qed.

(** ** disconnect *)

(** X1.  In a reachable state, the [disconnect] of a connection that has
    no peer record (it never joined a room) throws on reading
    [peers[socket.id]] and leaves the state as it was. *)
Theorem disconnect_without_peer_throws :
  ∀ (st : State) (socket : SocketId),
    reachable st →
    peers st !! socket = None →
    on_disconnect socket st = Throw st.
Proof.
  intros st socket Hreach Hnone.
  destruct (removed_unknown socket st (reachable_Inv st Hreach) Hnone)
    as [Hrem Hcl].
  unfold on_disconnect, bind.
  rewrite on_disconnect_cleanup_unknown by done.
  by rewrite Hrem, Hcl, logs_nil.
Qed.

Lemma disconnect_without_peer_throws_witness :
  on_disconnect "C" conference = Throw conference.
Proof.
  apply disconnect_without_peer_throws.
  - by exists conference_ops.
  - vm_compute; reflexivity.
Defined.

(** X2.  Whatever the state, all that the two [disconnect] listeners send
    are the [close()] calls on the consumers, then the producers, then the
    transports of the socket: [stopCombinedRecording] is never called,
    because the first listener has taken the producers of the socket out of
    the registry, or has thrown, before the second one looks for them. *)
Theorem disconnect_sends_only_closes :
  ∀ (st : State) (socket : SocketId),
    sent st (state_of (on_disconnect socket st)) = closes socket st ∧
    ∀ producerId, StopCombinedRecording producerId ∉ closes socket st.
Proof.
  intros st socket. split.
  - destruct (peers st !! socket) as [p|] eqn:Hpeer;
      [destruct (rooms st !! pr_roomName p) as [rm|] eqn:Hroom|].
    + rewrite (on_disconnect_joined _ p rm) by done. by apply sent_logs.
    + unfold on_disconnect, bind.
      rewrite (on_disconnect_cleanup_roomless _ p) by done.
      by apply sent_logs.
    + unfold on_disconnect, bind.
      rewrite on_disconnect_cleanup_unknown by done.
      by apply sent_logs.
  - intros producerId Hin. unfold closes in Hin.
    repeat (apply elem_of_app in Hin as [Hin|Hin]);
      apply list_elem_of_fmap in Hin as (i & Heq & _); discriminate Heq.
Qed.

(** ** joinRoom and the rooms *)

(** The state in which a returning [joinRoom] leaves the server. *)
Lemma on_joinRoom_Ok_state socket roomName userName engine st st' :
  on_joinRoom socket roomName userName engine st = Ok tt st' →
  ∃ router1,
    st' = log (Callback socket (RtpCapabilities router1))
      (set_peers (<[socket := fresh_peer socket roomName userName]> (peers st))
         (set_rooms (<[roomName :=
            {| r_router := router1;
               r_peers := members st roomName ++ [socket] |}]> (rooms st))
            st)).
Proof.
  unfold members.
  destruct (rooms st !! roomName) as [rm|] eqn:Hroom.
  - rewrite (on_joinRoom_registered _ _ _ _ rm) by done. intros [= <-].
    by exists (r_router rm).
  - destruct (inherited roomName) eqn:Hown;
      [by rewrite on_joinRoom_inherited|].
    destruct engine as [router1|].
    + rewrite on_joinRoom_new by done. intros [= <-]. by exists router1.
    + by rewrite on_joinRoom_rejected.
Qed.

(** X3.  [joinRoom], run without interruption, returns exactly when the
    room is registered, or its name is not an inherited property of the
    [rooms] object and the engine creates a router; for a registered room
    the engine is not asked.  Otherwise it throws, answers nothing and
    changes nothing. *)
Theorem joinRoom_returns_iff_room_or_router :
  ∀ (st : State) (socket : SocketId) (roomName : RoomName)
    (userName : string) (engine : option Router),
    ((∃ st', on_joinRoom socket roomName userName engine st = Ok tt st') ↔
     (is_Some (rooms st !! roomName) ∨
      (inherited roomName = false ∧ is_Some engine))) ∧
    ((∃ st', on_joinRoom socket roomName userName engine st = Ok tt st') ∨
     on_joinRoom socket roomName userName engine st = Throw st).
Proof.
  intros st socket roomName userName engine.
  destruct (rooms st !! roomName) as [rm|] eqn:Hroom.
  - rewrite (on_joinRoom_registered _ _ _ _ rm) by done.
    split; [split|]; eauto.
  - destruct (inherited roomName) eqn:Hown.
    { rewrite on_joinRoom_inherited by done.
      split; [split|by right]; [by intros [? ?]|].
      intros [[? ?]|[? _]]; discriminate. }
    destruct engine as [router1|].
    + rewrite on_joinRoom_new by done. split; [split|]; eauto.
    + rewrite on_joinRoom_rejected by done.
      split; [split|]; [by intros [? ?] | | by right].
      intros [[? ?]|[_ [? ?]]]; discriminate.
Qed.

(** X5.  A connection that joins a room, then another room, and then
    disconnects is taken out of the member list of the second room only:
    it stays in the member list of the first. *)
Theorem disconnect_leaves_earlier_rooms :
  ∀ (st st1 st2 : State) (socket : SocketId)
    (roomName1 roomName2 : RoomName)
    (userName1 userName2 : string) (engine1 engine2 : option Router),
    roomName1 ≠ roomName2 →
    on_joinRoom socket roomName1 userName1 engine1 st = Ok tt st1 →
    on_joinRoom socket roomName2 userName2 engine2 st1 = Ok tt st2 →
    ∃ st3,
      on_disconnect socket st2 = Ok tt st3 ∧
      peers st3 !! socket = None ∧
      (socket ∉ members st3 roomName2) ∧
      (socket ∈ members st3 roomName1).
Proof.
  intros st st1 st2 socket r1 r2 u1 u2 e1 e2 Hne Hj1 Hj2.
  apply on_joinRoom_Ok_state in Hj1 as [router1 ->].
  apply on_joinRoom_Ok_state in Hj2 as [router2 ->].
  eexists. split.
  - eapply (on_disconnect_joined _ (fresh_peer socket r2 u2)); simpl.
    + apply lookup_insert_eq.
    + apply lookup_insert_eq.
  - simpl. split; [apply lookup_delete_eq|].
    unfold members. simpl. split.
    + rewrite lookup_insert_eq. simpl.
      rewrite list_elem_of_filter. by intros [? _].
    + rewrite !lookup_insert_ne by congruence.
      rewrite lookup_insert_eq. simpl.
      apply elem_of_app. right. by apply list_elem_of_singleton.
Qed.

Lemma disconnect_leaves_earlier_rooms_witness :
  ∃ st3,
    on_disconnect "A"
      (run [ JoinRoom "A" "room1" "alice" (Some "R1");
             JoinRoom "A" "room2" "alice" (Some "R2") ] init) = Ok tt st3 ∧
    peers st3 !! "A" = None ∧
    ("A" ∉ members st3 "room2") ∧
    ("A" ∈ members st3 "room1").
Proof.
  apply (disconnect_leaves_earlier_rooms init
           (run [JoinRoom "A" "room1" "alice" (Some "R1")] init) _
           "A" "room1" "room2" "alice" "alice" (Some "R1") (Some "R2")).
  - discriminate.
  - vm_compute; reflexivity.
  - vm_compute; reflexivity.
Defined.

Lemma filter_ne_snoc (socket : SocketId) (l : list SocketId) :
  filter (λ id, id ≠ socket) (l ++ [socket]) = filter (λ id, id ≠ socket) l.
Proof.
  rewrite filter_app, filter_cons, decide_False, filter_nil, app_nil_r; [done|].
  by intros Hne.
Qed.

(** X6.  In a reachable state, a connection without a peer record that
    joins a room and disconnects leaves the peers and the three registries
    as they were before the join.  The room stays registered, also when the
    join created it, and its member list is the former one without the
    connection; the other rooms are untouched. *)
Theorem join_then_disconnect_restores :
  ∀ (st st1 : State) (socket : SocketId) (roomName : RoomName)
    (userName : string) (engine : option Router),
    reachable st →
    peers st !! socket = None →
    on_joinRoom socket roomName userName engine st = Ok tt st1 →
    ∃ st2,
      on_disconnect socket st1 = Ok tt st2 ∧
      peers st2 = peers st ∧
      transports st2 = transports st ∧
      producers st2 = producers st ∧
      consumers st2 = consumers st ∧
      is_Some (rooms st2 !! roomName) ∧
      members st2 roomName = filter (λ id, id ≠ socket) (members st roomName) ∧
      ∀ other, other ≠ roomName → rooms st2 !! other = rooms st !! other.
Proof.
  intros st st1 socket roomName userName engine Hreach Hnone Hjoin.
  pose proof (reachable_Inv st Hreach) as [_ Ht Hp Hc _].
  apply on_joinRoom_Ok_state in Hjoin as [router1 ->].
  eexists. split.
  { eapply (on_disconnect_joined _ (fresh_peer socket roomName userName));
      simpl; apply lookup_insert_eq. }
  simpl. rewrite delete_insert_id by done.
  rewrite !filter_ne_all by by eapply owners_in_none.
  repeat (split; [done|]).
  rewrite lookup_insert_eq. split; [by eauto|]. split.
  - unfold members at 1. simpl. rewrite lookup_insert_eq. simpl.
    apply filter_ne_snoc.
  - intros other Hother. by rewrite !lookup_insert_ne.
Qed.

Lemma join_then_disconnect_restores_witness :
  ∃ st2,
    on_disconnect "C"
      (state_of (on_joinRoom "C" "room1" "carol" None conference))
    = Ok tt st2 ∧
    peers st2 = peers conference ∧
    transports st2 = transports conference ∧
    producers st2 = producers conference ∧
    consumers st2 = consumers conference ∧
    is_Some (rooms st2 !! "room1") ∧
    members st2 "room1" = filter (λ id, id ≠ "C") (members conference "room1") ∧
    ∀ other, other ≠ "room1" → rooms st2 !! other = rooms conference !! other.
Proof.
  apply (join_then_disconnect_restores conference _ "C" "room1" "carol" None).
  - by exists conference_ops.
  - vm_compute; reflexivity.
  - vm_compute; reflexivity.
Defined.

(** ** Transports *)

(** X7.  [getTransport] finds the send transport that the connection
    created first.  After a [createWebRtcTransport] that returns, the send
    transport of the caller is the one it had before, if it had one; the
    new transport otherwise, if it is not a consumer transport; and still
    none if the new transport is a consumer transport. *)
Theorem send_transport_is_the_first_created :
  ∀ (st st1 : State) (socket : SocketId) (consumer : bool)
    (transport : Transport),
    on_createWebRtcTransport socket consumer (Some transport) st = Ok tt st1 →
    getTransport socket st1
    = match getTransport socket st with
      | Ok earlier _ => Ok earlier st1
      | Throw _ => if consumer then Throw st1 else Ok transport st1
      end.
Proof.
  intros st st1 socket consumer transport.
  unfold on_createWebRtcTransport. monad_unfold.
  destruct (peers st !! socket) as [p|] eqn:Hpeer; [|done].
  destruct (rooms st !! pr_roomName p) as [rm|]; [|done].
  rewrite (addTransport_joined _ _ _ _ p) by done. intros [= <-].
  unfold getTransport. monad_unfold. simpl. rewrite filter_app.
  destruct (filter _ (transports st)) as [|earlier rest]; simpl; [|done].
  rewrite filter_cons. simpl. destruct consumer.
  - rewrite decide_False; [done|]. by intros [_ ?].
  - by rewrite decide_True.
Qed.

Lemma send_transport_is_the_first_created_witness :
  getTransport "A"
    (state_of (on_createWebRtcTransport "A" false (Some {| t_id := "tA2" |})
                 conference))
  = Ok {| t_id := "tA" |}
      (state_of (on_createWebRtcTransport "A" false (Some {| t_id := "tA2" |})
                   conference)).
Proof.
  apply (send_transport_is_the_first_created conference _ "A" false
           {| t_id := "tA2" |}).
  vm_compute; reflexivity.
Defined.

Lemma find_consumer_transport_Some id items :
  (∃ i, i ∈ items ∧ td_consumer i = true ∧ t_id (td_transport i) = id) →
  ∃ transportData,
    find_consumer_transport id items = Some transportData ∧
    t_id (td_transport transportData) = id.
Proof.
  intros (i & Hi & Hc & Hid). unfold find_consumer_transport.
  destruct (find _ items) as [transportData|] eqn:Hf.
  - apply find_some in Hf as [_ Hf]. apply andb_true_iff in Hf as [_ Hf].
    apply bool_decide_eq_true in Hf. eauto.
  - apply list_elem_of_In in Hi.
    pose proof (find_none _ _ Hf i Hi) as Hfalse. simpl in Hfalse.
    rewrite Hc, bool_decide_true in Hfalse by done. discriminate.
Qed.

(** X8.  [transport-recv-connect] throws and changes nothing when
    [serverConsumerTransportId] is the id of no consumer transport in the
    registry.  Otherwise it calls [connect] on the transport of that id,
    whichever connection owns it, and returns when the engine connects; it
    throws, with nothing else changed, when the engine rejects. *)
Theorem transport_recv_connect_outcomes :
  ∀ (st : State) (socket : SocketId) (serverConsumerTransportId : Id)
    (engine : option unit),
    ((∀ i, i ∈ transports st → td_consumer i = true →
           t_id (td_transport i) ≠ serverConsumerTransportId) →
     on_transport_recv_connect socket serverConsumerTransportId engine st
     = Throw st)
    ∧
    ((∃ i, i ∈ transports st ∧ td_consumer i = true ∧
           t_id (td_transport i) = serverConsumerTransportId) →
     on_transport_recv_connect socket serverConsumerTransportId engine st
     = match engine with
       | Some _ => Ok tt (log (Connect serverConsumerTransportId) st)
       | None => Throw (log (Connect serverConsumerTransportId) st)
       end).
Proof.
  intros st socket ct engine. split.
  - intros Hno. unfold on_transport_recv_connect. monad_unfold.
    by rewrite (find_consumer_transport_None _ _ Hno).
  - intros Hsome. unfold on_transport_recv_connect. monad_unfold.
    destruct (find_consumer_transport_Some _ _ Hsome) as (td & -> & <-).
    by destruct engine as [[]|].
Qed.

Lemma transport_recv_connect_outcomes_witness :
  on_transport_recv_connect "A" "tA" (Some tt) conference = Throw conference ∧
  on_transport_recv_connect "A" "tB" None conference
  = Throw (log (Connect "tB") conference).
Proof.
  split.
  - apply (proj1 (transport_recv_connect_outcomes conference "A" "tA"
                    (Some tt))).
    intros i Hi Hc. vm_compute in Hi.
    apply elem_of_cons in Hi as [->|Hi]; [discriminate Hc|].
    apply list_elem_of_singleton in Hi. subst i. discriminate.
  - apply (proj2 (transport_recv_connect_outcomes conference "A" "tB" None)).
    exists {| td_socketId := "B"; td_transport := {| t_id := "tB" |};
              td_roomName := "room1"; td_consumer := true |}.
    vm_compute. split; [|done]. right. by left.
Defined.



(** X10.  [createWebRtcTransport] never answers a request for which the
    engine rejects the transport: whatever the state, nothing is sent and
    nothing changes. *)
Theorem createWebRtcTransport_rejected_is_silent :
  ∀ (st : State) (socket : SocketId) (consumer : bool),
    state_of (on_createWebRtcTransport socket consumer None st) = st.
Proof.
  intros st socket consumer. unfold on_createWebRtcTransport. monad_unfold.
  destruct (peers st !! socket) as [p|]; [|done].
  by destruct (rooms st !! pr_roomName p).
Qed.

(** X11.  The [dtlsstatechange] listener closes the transport when the
    state is ["closed"] and does not take its record out of the registry:
    a send transport closed this way is still the one that
    [transport-connect] picks. *)
Theorem closed_send_transport_is_still_used :
  ∀ (st : State) (socket : SocketId) (transport : Transport),
    getTransport socket st = Ok transport st →
    on_dtlsstatechange transport "closed" st
    = Ok tt (log (Close "transport" (t_id transport)) st) ∧
    on_transport_connect socket (log (Close "transport" (t_id transport)) st)
    = Ok tt (log (Connect (t_id transport))
               (log (Close "transport" (t_id transport)) st)).
Proof.
  intros st socket transport. unfold on_transport_connect, getTransport.
  monad_unfold. simpl.
  destruct (filter _ (transports st)) as [|first rest]; [done|].
  by intros [= ->].
Qed.

Lemma closed_send_transport_is_still_used_witness :
  on_dtlsstatechange {| t_id := "tA" |} "closed" conference
  = Ok tt (log (Close "transport" "tA") conference) ∧
  on_transport_connect "A" (log (Close "transport" "tA") conference)
  = Ok tt (log (Connect "tA") (log (Close "transport" "tA") conference)).
Proof.
  apply (closed_send_transport_is_still_used conference "A" {| t_id := "tA" |}).
  vm_compute; reflexivity.
Defined.



(** ** Consumers *)

(** X13.  [consumer-resume] throws and changes nothing when
    [serverConsumerId] is the id of no record of the consumer registry;
    otherwise [resume()] is called on a consumer of the registry that has
    this id, whichever connection owns it, and the state stays as it is. *)
Theorem consumer_resume_outcomes :
  ∀ (st : State) (socket : SocketId) (serverConsumerId : Id)
    (engine : option unit),
    ((∀ i, i ∈ consumers st → c_id (cd_consumer i) ≠ serverConsumerId) →
     on_consumer_resume socket serverConsumerId engine st = Throw st)
    ∧
    ((∃ i, i ∈ consumers st ∧ c_id (cd_consumer i) = serverConsumerId) →
     ∃ i, i ∈ consumers st ∧ c_id (cd_consumer i) = serverConsumerId ∧
          on_consumer_resume socket serverConsumerId engine st
          = match engine with
            | Some _ => Ok (cd_consumer i) st
            | None => Throw st
            end).
Proof.
  intros st socket id engine. unfold on_consumer_resume. monad_unfold. split.
  - intros Hno.
    destruct (find _ (consumers st)) as [i|] eqn:Hf; [|done].
    apply find_some in Hf as [Hi Hid]. apply list_elem_of_In in Hi.
    apply bool_decide_eq_true in Hid. by destruct (Hno i Hi).
  - intros (j & Hj & Hjid).
    destruct (find _ (consumers st)) as [i|] eqn:Hf.
    + apply find_some in Hf as [Hi Hid]. apply list_elem_of_In in Hi.
      apply bool_decide_eq_true in Hid.
      exists i. split; [done|]. split; [done|]. by destruct engine.
    + apply list_elem_of_In in Hj.
      pose proof (find_none _ _ Hf j Hj) as Hfalse. simpl in Hfalse.
      rewrite bool_decide_true in Hfalse by done. discriminate.
Qed.

Lemma consumer_resume_outcomes_witness :
  on_consumer_resume "A" "cZ" (Some tt) conference = Throw conference ∧
  ∃ i, i ∈ consumers conference ∧ c_id (cd_consumer i) = "cB" ∧
       on_consumer_resume "A" "cB" (Some tt) conference
       = Ok (cd_consumer i) conference.
Proof.
  split.
  - apply (proj1 (consumer_resume_outcomes conference "A" "cZ" (Some tt))).
    intros i Hi. vm_compute in Hi.
    apply list_elem_of_singleton in Hi. subst i. discriminate.
  - apply (proj2 (consumer_resume_outcomes conference "A" "cB" (Some tt))).
    exists {| cd_socketId := "B";
              cd_consumer := {| c_id := "cB"; c_kind := "video" |};
              cd_roomName := "room1" |}.
    vm_compute. split; [by left | done].
Defined.

Lemma on_consume_unknown_transport socket remoteProducerId
    serverConsumerTransportId canConsume engine st :
  (∀ i, i ∈ transports st → td_consumer i = true →
        t_id (td_transport i) ≠ serverConsumerTransportId) →
  on_consume socket remoteProducerId serverConsumerTransportId canConsume
    engine st
  = Ok tt (log (Callback socket ConsumeError) st).
Proof.
  intros Hno. unfold on_consume. monad_unfold.
  destruct (peers st !! socket) as [p|]; [|done].
  destruct (rooms st !! pr_roomName p) as [rm|]; [|done].
  by rewrite (find_consumer_transport_None _ _ Hno).
Qed.

(** X14.  The producer-close listener of a consumer notifies its socket,
    closes the consumer and its whole transport, and takes every record
    with the id of that transport or of that consumer out of the
    registries, while the peer records stay as they are.  From then on a
    [consume] that names this transport is answered [{params: {error}}]. *)
Theorem producerclose_retires_the_transport :
  ∀ (st : State) (socket : SocketId) (remoteProducerId : Id)
    (consumerTransport : Transport) (consumer : Consumer),
    ∃ st1,
      on_producerclose socket remoteProducerId consumerTransport consumer st
      = Ok tt st1 ∧
      sent st st1 = [ Emit socket "producer-closed" remoteProducerId;
                      Close "transport" (t_id consumerTransport);
                      Close "consumer" (c_id consumer) ] ∧
      transports st1
      = filter (λ i, t_id (td_transport i) ≠ t_id consumerTransport)
          (transports st) ∧
      consumers st1
      = filter (λ i, c_id (cd_consumer i) ≠ c_id consumer) (consumers st) ∧
      producers st1 = producers st ∧
      peers st1 = peers st ∧
      ∀ caller producerId canConsume engine,
        on_consume caller producerId (t_id consumerTransport) canConsume
          engine st1
        = Ok tt (log (Callback caller ConsumeError) st1).
Proof.
  intros st socket rp ct c. eexists. split; [reflexivity|].
  simpl. split.
  { unfold sent. simpl. rewrite <- !app_assoc. simpl.
    by rewrite drop_app_length. }
  repeat (split; [done|]).
  intros caller producerId canConsume engine.
  apply on_consume_unknown_transport. simpl. intros i Hi _.
  by apply list_elem_of_filter in Hi as [Hne _].
Qed.

(** ** startRecording *)

(** X15.  When both ids resolve, the first to an audio and the second to a
    video producer, and the caller has a peer record, [startRecording]
    calls the recorder with these two producers, the room of the caller
    and the caller's socket id, whoever owns the producers and whatever
    their rooms.  It then answers with the file name, or with the error if
    the recorder rejects. *)
Theorem startRecording_outcomes :
  ∀ (st : State) (socket : SocketId) (p : Peer)
    (audioProducerId videoProducerId : Id)
    (audioProducer videoProducer : Producer) (recorder : option string),
    find_producer audioProducerId (producers st) = Some audioProducer →
    find_producer videoProducerId (producers st) = Some videoProducer →
    p_kind audioProducer = "audio" →
    p_kind videoProducer = "video" →
    peers st !! socket = Some p →
    on_startRecording socket audioProducerId videoProducerId recorder st
    = Ok tt
        (log (Callback socket
                match recorder with
                | Some fileName => RecordingStarted fileName
                | None => CaughtError
                end)
           (log (StartCombinedRecording audioProducer videoProducer
                   (pr_roomName p) socket) st)).
Proof.
  intros st socket p a v pa pv recorder Ha Hv Hka Hkv Hpeer.
  unfold on_startRecording. monad_unfold. rewrite Ha, Hv, Hka, Hkv.
  simpl. rewrite Hpeer. by destruct recorder.
Qed.

Lemma startRecording_outcomes_witness :
  let st := run (conference_ops ++
                   [TransportProduce "A" "audio" (Some "pA2")]) init in
  on_startRecording "B" "pA2" "pA" (Some "room1.webm") st
  = Ok tt
      (log (Callback "B" (RecordingStarted "room1.webm"))
         (log (StartCombinedRecording {| p_id := "pA2"; p_kind := "audio" |}
                 {| p_id := "pA"; p_kind := "video" |} "room1" "B") st)).
Proof.
  apply (startRecording_outcomes _ "B" peerB "pA2" "pA"
           {| p_id := "pA2"; p_kind := "audio" |}
           {| p_id := "pA"; p_kind := "video" |} (Some "room1.webm"));
    vm_compute; reflexivity.
Defined.

(** ** The catch-all route *)

Lemma append_cons (a : Ascii.ascii) (s rest : string) :
  String a s +:+ rest = String a (s +:+ rest).
Proof. reflexivity. Qed.

Lemma prefix_append (s1 s2 : string) :
  String.prefix s1 s2 = true ↔ ∃ rest, s2 = s1 +:+ rest.
Proof.
  revert s2. induction s1 as [|a s1 IH]; intros s2; simpl.
  - destruct s2; split; eauto.
  - destruct s2 as [|b s2].
    + split; [done|]. intros [rest Hrest]. rewrite append_cons in Hrest.
      discriminate.
    + simpl. destruct (Ascii.ascii_dec a b) as [Heq|Hne].
      * subst a. split.
        -- intros Hpre. apply (IH s2) in Hpre as [rest ->]. by exists rest.
        -- intros [rest Hrest]. apply (IH s2). exists rest.
           rewrite append_cons in Hrest. by injection Hrest.
      * split; [done|]. intros [rest Hrest]. rewrite append_cons in Hrest.
        congruence.
Qed.

Lemma index_0_prefix (s1 s2 : string) :
  s1 ≠ "" → (String.index 0 s1 s2 = Some 0 ↔ String.prefix s1 s2 = true).
Proof.
  intros Hs1. destruct s2 as [|b s2].
  - destruct s1; [done|]. simpl. split; discriminate.
  - cbn [String.index].
    destruct (String.prefix s1 (String b s2)); [done|].
    destruct (String.index 0 s1 s2); split; discriminate.
Qed.

Lemma length_append (s1 s2 : string) :
  String.length (s1 +:+ s2) = String.length s1 + String.length s2.
Proof. induction s1 as [|a s1 IH]; simpl; [done|]. by rewrite IH. Qed.

(** X16.  The catch-all route passes a request on exactly when its path
    is ["/sfu/"] followed by at least one character; every other path,
    ["/sfu/"] itself included, gets the usage hint. *)
Theorem route_passes_room_paths_only :
  ∀ req_path : string,
    route req_path = Next ↔ ∃ room, room ≠ "" ∧ req_path = "/sfu/" +:+ room.
Proof.
  intros req_path. unfold route.
  destruct (bool_decide _ && _) eqn:Htest.
  - split; [intros _|done].
    apply andb_true_iff in Htest as [Hidx Hlen].
    apply bool_decide_eq_true in Hidx. apply index_0_prefix in Hidx; [|done].
    apply prefix_append in Hidx as [room ->]. exists room. split; [|done].
    intros ->. by vm_compute in Hlen.
  - split; [done|]. intros (room & Hroom & ->).
    apply andb_false_iff in Htest as [Hidx|Hlen].
    + apply bool_decide_eq_false in Hidx. destruct Hidx.
      apply index_0_prefix; [done|]. apply prefix_append. eauto.
    + rewrite length_append in Hlen. destruct room; [done|].
      simpl in Hlen. discriminate.
Qed.

(** ** The utility functions *)

(** X18.  [removeItems] closes exactly the items of the socket, in their
    order, and returns the other items in their order; applied to its own
    result it closes nothing and returns the same list. *)
Theorem removeItems_keeps_others_and_is_idempotent :
  ∀ (A : Type) (socketId_of : A → SocketId) (handle_of : A → Id)
    (items : list A) (socketId : SocketId) (type : string) (st : State),
    ∃ kept st1,
      removeItems socketId_of handle_of items socketId type st = Ok kept st1 ∧
      kept = filter (λ i, socketId_of i ≠ socketId) items ∧
      sent st st1 = (λ i, Close type (handle_of i)) <$>
                      filter (λ i, socketId_of i = socketId) items ∧
      removeItems socketId_of handle_of kept socketId type st1 = Ok kept st1.
Proof.
  intros A socketId_of handle_of items socketId type st.
  eexists _, _. split; [apply removeItems_eq|]. split; [done|].
  split; [by apply sent_logs|].
  rewrite removeItems_eq, filter_ne_none. simpl. rewrite logs_nil.
  f_equal. apply filter_ne_all, filter_ne_none.
Qed.

(** X19.  [addTransport], [addProducer] and [addConsumer] write the
    registry before they read the peer record: for a socket that has no
    peer record they throw and leave the new record in the registry. *)
Theorem add_without_peer_leaves_the_record :
  ∀ (st : State) (socket : SocketId) (roomName : RoomName),
    peers st !! socket = None →
    (∀ transport consumer,
       addTransport transport roomName consumer socket st
       = Throw (set_transports (transports st ++
           [{| td_socketId := socket; td_transport := transport;
               td_roomName := roomName; td_consumer := consumer |}]) st)) ∧
    (∀ producer,
       addProducer producer roomName socket st
       = Throw (set_producers (producers st ++
           [{| pd_socketId := socket; pd_producer := producer;
               pd_roomName := roomName |}]) st)) ∧
    (∀ consumer,
       addConsumer consumer roomName socket st
       = Throw (set_consumers (consumers st ++
           [{| cd_socketId := socket; cd_consumer := consumer;
               cd_roomName := roomName |}]) st)).
Proof.
  intros st socket roomName Hnone. repeat split; intros;
    unfold addTransport, addProducer, addConsumer; monad_unfold; simpl;
    by rewrite Hnone.
Qed.

Lemma add_without_peer_leaves_the_record_witness :
  addProducer {| p_id := "pC"; p_kind := "video" |} "room1" "C" conference
  = Throw (set_producers (producers conference ++
      [{| pd_socketId := "C";
          pd_producer := {| p_id := "pC"; p_kind := "video" |};
          pd_roomName := "room1" |}]) conference).
Proof.
  apply (proj1 (proj2 (add_without_peer_leaves_the_record conference "C"
                         "room1" ltac:(vm_compute; reflexivity)))).
Defined.

(** ** getProducers after other events *)

Lemma on_getProducers_joined socket p st :
  peers st !! socket = Some p →
  on_getProducers socket st
  = Ok tt (log (Callback socket (ProducerList
      ((λ i, p_id (pd_producer i)) <$>
         filter (λ i, pd_socketId i ≠ socket ∧ pd_roomName i = pr_roomName p)
           (producers st)))) st).
Proof.
  intros Hp. unfold on_getProducers. monad_unfold.
  rewrite Hp. simpl. by rewrite collect_producers_eq.
Qed.

(** X20.  After a [transport-produce] that returns in a reachable state,
    [getProducers] of any other connection whose peer is in the room of the
    caller answers with the list it would have answered before, followed by
    the id of the new producer. *)
Theorem new_producer_is_listed_to_the_room :
  ∀ (st : State) (socket other : SocketId) (p q : Peer) (kind : string)
    (id : Id),
    reachable st →
    (∃ i, i ∈ transports st ∧ td_socketId i = socket
          ∧ td_consumer i = false) →
    peers st !! socket = Some p →
    peers st !! other = Some q →
    other ≠ socket →
    pr_roomName q = pr_roomName p →
    ∃ st1 before,
      on_transport_produce socket kind (Some id) st = Ok tt st1 ∧
      sent st (state_of (on_getProducers other st))
      = [Callback other (ProducerList before)] ∧
      sent st1 (state_of (on_getProducers other st1))
      = [Callback other (ProducerList (before ++ [id]))].
Proof.
  intros st socket other p q kind id Hreach Hsend Hp Hq Hne Hroom.
  pose proof (reachable_Inv st Hreach) as HI.
  eexists _, _. split; [by apply on_transport_produce_joined|].
  split.
  - rewrite (on_getProducers_joined _ q) by done. by apply sent_log.
  - rewrite (on_getProducers_joined _ q)
      by (simpl; by rewrite lookup_insert_ne).
    cbn [state_of]. rewrite sent_log by done. simpl.
    rewrite filter_app, filter_cons, decide_True, fmap_app by done.
    done.
Qed.

Lemma new_producer_is_listed_to_the_room_witness :
  ∃ st1 before,
    on_transport_produce "A" "audio" (Some "pA2") conference = Ok tt st1 ∧
    sent conference (state_of (on_getProducers "B" conference))
    = [Callback "B" (ProducerList before)] ∧
    sent st1 (state_of (on_getProducers "B" st1))
    = [Callback "B" (ProducerList (before ++ ["pA2"]))].
Proof.
  apply (new_producer_is_listed_to_the_room conference "A" "B" peerA peerB).
  - by exists conference_ops.
  - exists {| td_socketId := "A"; td_transport := {| t_id := "tA" |};
              td_roomName := "room1"; td_consumer := false |}.
    vm_compute. split; [by left | done].
  - vm_compute; reflexivity.
  - vm_compute; reflexivity.
  - discriminate.
  - reflexivity.
Defined.

(** X21.  After the [disconnect] of a joined connection, [getProducers]
    of any other connection that has a peer record answers with the list
    it would have answered before without the producers of the connection
    that left. *)
Theorem departed_producers_are_not_listed :
  ∀ (st : State) (socket other : SocketId) (p q : Peer) (rm : Room),
    peers st !! socket = Some p →
    rooms st !! pr_roomName p = Some rm →
    peers st !! other = Some q →
    other ≠ socket →
    ∃ st1,
      on_disconnect socket st = Ok tt st1 ∧
      sent st1 (state_of (on_getProducers other st1))
      = [Callback other (ProducerList
           ((λ i, p_id (pd_producer i)) <$>
              filter (λ i, pd_socketId i ≠ socket)
                (filter (λ i, pd_socketId i ≠ other
                              ∧ pd_roomName i = pr_roomName q)
                   (producers st))))].
Proof.
  intros st socket other p q rm Hp Hrm Hq Hne.
  eexists. split; [by apply (on_disconnect_joined _ p rm)|].
  rewrite (on_getProducers_joined _ q)
    by (simpl; by rewrite lookup_delete_ne).
  cbn [state_of]. rewrite sent_log by done. simpl.
  do 3 f_equal. rewrite !list_filter_filter. f_equal.
  apply list_filter_iff. intros i. tauto.
Qed.

Lemma departed_producers_are_not_listed_witness :
  ∃ st1,
    on_disconnect "A" conference = Ok tt st1 ∧
    sent st1 (state_of (on_getProducers "B" st1))
    = [Callback "B" (ProducerList
         ((λ i, p_id (pd_producer i)) <$>
            filter (λ i, pd_socketId i ≠ "A")
              (filter (λ i, pd_socketId i ≠ "B"
                            ∧ pd_roomName i = pr_roomName peerB)
                 (producers conference))))].
Proof.
  apply (departed_producers_are_not_listed conference "A" "B" peerA peerB
           room1).
  - vm_compute; reflexivity.
  - vm_compute; reflexivity.
  - vm_compute; reflexivity.
  - discriminate.
Defined.

(** * The server with suspended handlers *)

(** ** A handler is an uninterrupted run of its parts *)

Lemma bind_ret_tt (m : M unit) st : (m >> ret tt) st = m st.
Proof. unfold bind, ret. by destruct (m st) as [[] ?|?]. Qed.

Lemma handler_uninterrupted op st : handler op st = uninterrupted op st.
Proof.
  unfold uninterrupted. destruct op; simpl.
  - (* disconnect *)
    unfold bind at 1 2. by destruct (on_disconnect socket st) as [[] ?|?].
  - (* joinRoom *)
    unfold on_joinRoom, createRoom. monad_unfold.
    destruct (rooms st !! roomName) as [rm|]; simpl; [done|].
    destruct (inherited roomName); simpl; [done|].
    by destruct engine.
  - (* createWebRtcTransport *)
    unfold on_createWebRtcTransport. monad_unfold.
    destruct (peers st !! socket) as [p|]; simpl; [|done].
    destruct (rooms st !! pr_roomName p) as [rm|]; simpl; [|done].
    destruct engine as [transport|]; simpl; [|done].
    monad_unfold. simpl.
    by destruct (addTransport _ _ _ _ _) as [[] ?|?].
  - (* getProducers *)
    unfold bind at 1 2. by destruct (on_getProducers socket st) as [[] ?|?].
  - (* transport-connect *)
    unfold bind at 1 2.
    by destruct (on_transport_connect socket st) as [[] ?|?].
  - (* transport-produce *)
    unfold on_transport_produce. monad_unfold.
    destruct (getTransport socket st) as [transport st1|]; simpl; [|done].
    destruct engine as [id|]; simpl; [|done].
    monad_unfold. simpl.
    destruct (peers st1 !! socket) as [p|]; simpl; [|done].
    destruct (addProducer _ _ _ _) as [[] st2|]; simpl; [|done].
    by destruct (informConsumers _ _ _ _) as [[] st3|].
  - (* transport-recv-connect *)
    unfold on_transport_recv_connect. monad_unfold.
    destruct (find_consumer_transport _ _) as [transportData|]; simpl;
      [|done].
    by destruct engine as [[]|].
  - (* consume *)
    unfold on_consume. monad_unfold.
    destruct (peers st !! socket) as [p|]; simpl; [|done].
    destruct (rooms st !! pr_roomName p) as [rm|]; simpl; [|done].
    destruct (find_consumer_transport _ _) as [transportData|]; simpl;
      [|done].
    destruct canConsume; simpl; [|done].
    destruct engine as [consumer|]; simpl; [|done].
    monad_unfold. simpl.
    by destruct (addConsumer _ _ _ _) as [[] ?|?].
  - (* producer-close *)
    unfold bind at 1 2.
    by destruct (on_producerclose _ _ _ _ st) as [[] ?|?].
  - (* startRecording *)
    unfold on_startRecording. monad_unfold.
    destruct (find_producer audioProducerId _) as [audioProducer|]; simpl;
      [|done].
    destruct (find_producer videoProducerId _) as [videoProducer|]; simpl;
      [|done].
    destruct (_ || _); simpl; [done|].
    destruct (peers st !! socket) as [p|]; simpl; [|done].
    by destruct recorder.
Qed.

(** ** Suspension *)

Lemma current_settle r others : current (settle r others) = state_of r.
Proof. by destruct r as [[k|] st|st]. Qed.

(** Only [joinRoom] is suspended a second time, at [await createRoom(..)]
    once the router of a new room is there. *)
Lemma resume_Some k st k' st' :
  resume k st = Ok (Some k') st' →
  ∃ socket roomName userName router1,
    k = at_createRouter socket roomName userName (Some router1) ∧
    k' = at_createRoom socket roomName userName router1 ∧
    st' = set_rooms (<[roomName :=
            {| r_router := router1; r_peers := [socket] |}]> (rooms st)) st.
Proof.
  destruct k; simpl; monad_unfold; simpl.
  - destruct engine as [router1|]; [|done]. intros [= <- <-]. eauto 8.
  - done.
  - destruct engine as [transport|]; [|done]. simpl.
    by destruct (addTransport _ _ _ _ _) as [[] ?|?].
  - destruct engine as [id|]; [|done]. simpl. monad_unfold. simpl.
    destruct (peers st !! socket) as [p|]; [|done]. simpl.
    destruct (addProducer _ _ _ _) as [[] ?|?]; [|done].
    by destruct (informConsumers _ _ _ _) as [[] ?|?].
  - by destruct engine.
  - destruct engine as [consumer|]; [|done]. simpl. monad_unfold. simpl.
    by destruct (addConsumer _ _ _ _) as [[] ?|?].
  - by destruct recorder.
Qed.

Lemma resume_at_createRoom socket roomName userName router1 st :
  resume (at_createRoom socket roomName userName router1) st
  = Ok None (log (Callback socket (RtpCapabilities router1))
      (set_peers (<[socket := fresh_peer socket roomName userName]> (peers st))
         st)).
Proof. reflexivity. Qed.

(** What [start] leaves suspended for [joinRoom]: the room was registered
    and the socket is now the last of its members, or the room was not
    registered and nothing is written yet. *)
Lemma start_Some op st k st' :
  start op st = Ok (Some k) st' →
  match k with
  | at_createRouter socket roomName userName engine =>
      rooms st !! roomName = None ∧ st' = st
  | at_createRoom socket roomName userName router1 =>
      ∃ rm, rooms st !! roomName = Some rm ∧ router1 = r_router rm ∧
            st' = set_rooms (<[roomName :=
                    {| r_router := r_router rm;
                       r_peers := r_peers rm ++ [socket] |}]> (rooms st)) st
  | _ => True
  end.
Proof.
  destruct op; simpl; monad_unfold; simpl.
  - by destruct (on_disconnect _ _) as [[] ?|?].
  - destruct (rooms st !! roomName) as [rm|] eqn:Hroom; simpl.
    + intros [= <- <-]. eauto.
    + destruct (inherited roomName); [done|]. by intros [= <- <-].
  - destruct (peers st !! socket) as [p|]; [|done]. simpl.
    destruct (rooms st !! pr_roomName p); [|done]. by intros [= <- <-].
  - by destruct (on_getProducers _ _) as [[] ?|?].
  - by destruct (on_transport_connect _ _) as [[] ?|?].
  - destruct (getTransport _ _) as [? ?|?]; [|done]. by intros [= <- <-].
  - destruct (find_consumer_transport _ _); [|done]. by intros [= <- <-].
  - destruct (peers st !! socket) as [p|]; [|done]. simpl.
    destruct (rooms st !! pr_roomName p); [|done]. simpl.
    destruct (find_consumer_transport _ _); [|done]. simpl.
    destruct canConsume; [|done]. by intros [= <- <-].
  - done.
  - destruct (find_producer audioProducerId _) as [pa|]; [|done].
    destruct (find_producer videoProducerId _) as [pv|]; [|done].
    destruct (_ || _); [done|]. simpl.
    destruct (peers st !! socket) as [p|]; [|done]. by intros [= <- <-].
Qed.

(** ** Runs without interruption are runs of the server *)

Lemma async_uninterrupted sv op :
  suspended sv = [] →
  async_run [Start op; Resume 0; Resume 0] sv
  = {| current := step (current sv) op; suspended := [] |}.
Proof.
  intros Hnone. unfold step. rewrite handler_uninterrupted.
  unfold uninterrupted, async_run. simpl. rewrite Hnone. unfold bind.
  destruct (start op (current sv)) as [[k|] st1|st1]; simpl; [|done..].
  destruct (resume k st1) as [[k'|] st2|st2] eqn:Hres; simpl; [|done..].
  apply resume_Some in Hres as (s & r & u & router1 & _ & -> & _).
  by rewrite resume_at_createRoom.
Qed.

Lemma async_run_app evs1 evs2 sv :
  async_run (evs1 ++ evs2) sv = async_run evs2 (async_run evs1 sv).
Proof. unfold async_run. by rewrite foldl_app. Qed.

Lemma async_promptly ops sv :
  suspended sv = [] →
  async_run (promptly ops) sv
  = {| current := run ops (current sv); suspended := [] |}.
Proof.
  revert sv. induction ops as [|op ops IH]; intros sv Hnone.
  - simpl. destruct sv. simpl in *. by subst.
  - change (promptly (op :: ops))
      with ([Start op; Resume 0; Resume 0] ++ promptly ops).
    rewrite async_run_app, async_uninterrupted by done.
    by rewrite IH.
Qed.

(** Every state that uninterrupted handlers reach is a state of the
    server, with no handler suspended. *)
Lemma reachable_async st :
  reachable st → async_reachable {| current := st; suspended := [] |}.
Proof.
  intros [ops ->]. exists (promptly ops). by rewrite async_promptly.
Qed.

(** ** What one event writes *)

Lemma state_of_then_ret {A B} (m : M A) (b : B) st :
  state_of ((m >> ret b) st) = state_of (m st).
Proof. unfold bind, ret. by destruct (m st). Qed.

Lemma log_of_logs e es st : log e (logs es st) = logs (es ++ [e]) st.
Proof. unfold logs, log; simpl. by rewrite app_assoc. Qed.

Lemma addTransport_unknown transport roomName consumer socket st :
  peers st !! socket = None →
  addTransport transport roomName consumer socket st
  = Throw (set_transports (transports st ++
      [{| td_socketId := socket; td_transport := transport;
          td_roomName := roomName; td_consumer := consumer |}]) st).
Proof. intros Hp. unfold addTransport. monad_unfold. simpl. by rewrite Hp. Qed.

Lemma addConsumer_unknown consumer roomName socket st :
  peers st !! socket = None →
  addConsumer consumer roomName socket st
  = Throw (set_consumers (consumers st ++
      [{| cd_socketId := socket; cd_consumer := consumer;
          cd_roomName := roomName |}]) st).
Proof. intros Hp. unfold addConsumer. monad_unfold. simpl. by rewrite Hp. Qed.

Ltac unchanged es :=
  exists plain, es; eexists;
  split; [first [by rewrite logs_nil | reflexivity]|];
  split; [by constructor|]; repeat split; try done; by intros.

(** The first part of a handler. *)
Lemma start_change op st :
  ∃ kind es st1,
    state_of (start op st) = logs es st1 ∧
    change kind st st1 ∧
    (kind = closing → ∃ s rp t c, op = ProducerClose s rp t c) ∧
    kind ≠ orphan ∧
    (∀ s, kind = leaving s → op = Disconnect s).
Proof.
  destruct op; unfold start.
  - (* disconnect *)
    rewrite state_of_then_ret.
    destruct (peers st !! socket) as [p|] eqn:Hpeer;
      [destruct (rooms st !! pr_roomName p) as [rm|] eqn:Hroom|].
    + rewrite (on_disconnect_joined _ p rm) by done.
      exists (leaving socket). eexists _, _.
      split; [reflexivity|]. split; [by eapply ch_left|].
      repeat split; try done. by intros ? [= ->].
    + unfold on_disconnect, bind.
      rewrite (on_disconnect_cleanup_roomless _ p) by done.
      exists (leaving socket). eexists _, _.
      split; [reflexivity|]. split; [by eapply ch_left_roomless|].
      repeat split; try done. by intros ? [= ->].
    + unfold on_disconnect, bind.
      rewrite on_disconnect_cleanup_unknown by done.
      exists (leaving socket). eexists _, _.
      split; [reflexivity|]. split; [by eapply ch_removed|].
      repeat split; try done. by intros ? [= ->].
  - (* joinRoom *)
    monad_unfold.
    destruct (rooms st !! roomName) as [rm|] eqn:Hroom; simpl.
    + exists plain, []. eexists. split; [by rewrite logs_nil|].
      split; [by apply (ch_room_joined socket roomName rm)|].
      repeat split; try done; by intros.
    + destruct (inherited roomName); simpl; unchanged (@nil Effect).
  - (* createWebRtcTransport *)
    monad_unfold.
    destruct (peers st !! socket) as [p|]; simpl; [|unchanged (@nil Effect)].
    destruct (rooms st !! pr_roomName p); simpl; unchanged (@nil Effect).
  - (* getProducers *)
    rewrite state_of_then_ret.
    destruct (on_getProducers_logs socket st) as [es ->]. unchanged es.
  - (* transport-connect *)
    rewrite state_of_then_ret.
    destruct (on_transport_connect_logs socket st) as [es ->]. unchanged es.
  - (* transport-produce *)
    unfold getTransport. monad_unfold.
    destruct (filter _ (transports st)); simpl; unchanged (@nil Effect).
  - (* transport-recv-connect *)
    monad_unfold.
    destruct (find_consumer_transport _ _) as [transportData|]; simpl.
    + unchanged [Connect (t_id (td_transport transportData))].
    + unchanged (@nil Effect).
  - (* consume *)
    monad_unfold.
    destruct (peers st !! socket) as [p|]; simpl;
      [|unchanged [Callback socket ConsumeError]].
    destruct (rooms st !! pr_roomName p); simpl;
      [|unchanged [Callback socket ConsumeError]].
    destruct (find_consumer_transport _ _); simpl;
      [|unchanged [Callback socket ConsumeError]].
    destruct canConsume; simpl; unchanged (@nil Effect).
  - (* producer-close *)
    rewrite state_of_then_ret. unfold on_producerclose. monad_unfold. simpl.
    exists closing,
      [Emit socket "producer-closed" remoteProducerId;
       Close "transport" (t_id consumerTransport);
       Close "consumer" (c_id consumer)].
    eexists. split; [|split; [apply ch_producerclose|]].
    + unfold logs, log, set_consumers, set_transports. simpl.
      by rewrite <- !app_assoc.
    + repeat split; try done. eauto.
  - (* startRecording *)
    monad_unfold.
    destruct (find_producer audioProducerId _) as [pa|]; simpl;
      [|unchanged [Callback socket (Error "One or both producers not found")]].
    destruct (find_producer videoProducerId _) as [pv|]; simpl;
      [|unchanged [Callback socket (Error "One or both producers not found")]].
    destruct (_ || _); simpl;
      [unchanged [Callback socket (Error
         "Invalid producer kinds. Need one audio and one video producer.")]|].
    destruct (peers st !! socket) as [p|]; simpl.
    + unchanged [StartCombinedRecording pa pv (pr_roomName p) socket].
    + unchanged [Callback socket CaughtError].
Qed.

(** A part of a handler after an [await]. *)
Lemma resume_change k st :
  (∃ socket roomName userName router1,
     k = at_createRoom socket roomName userName router1 ∧
     state_of (resume k st)
     = log (Callback socket (RtpCapabilities router1))
         (set_peers
            (<[socket := fresh_peer socket roomName userName]> (peers st)) st))
  ∨
  (∃ socket roomName userName router1,
     k = at_createRouter socket roomName userName (Some router1) ∧
     state_of (resume k st)
     = set_rooms (<[roomName :=
         {| r_router := router1; r_peers := [socket] |}]> (rooms st)) st)
  ∨
  (∃ kind es st1,
     state_of (resume k st) = logs es st1 ∧
     change kind st st1 ∧
     kind ≠ closing ∧
     (∀ s, kind ≠ leaving s) ∧
     (kind = orphan →
      (∃ socket roomName consumer transport,
         k = at_createWebRtcTransport socket roomName consumer (Some transport)
         ∧ peers st !! socket = None) ∨
      (∃ socket roomName remoteProducerId consumer,
         k = at_consume socket roomName remoteProducerId (Some consumer)
         ∧ peers st !! socket = None))).
Proof.
  destruct k; unfold resume.
  - (* await worker.createRouter *)
    destruct engine as [router1|].
    + right. left. by exists socket, roomName, userName, router1.
    + right. right. unchanged (@nil Effect).
  - (* await createRoom *)
    left. by exists socket, roomName, userName, router1.
  - (* the promise of createWebRtcTransport *)
    right. right. destruct engine as [transport|]; [|unchanged (@nil Effect)].
    monad_unfold. simpl.
    destruct (peers st !! socket) as [p|] eqn:Hpeer.
    + rewrite (addTransport_joined _ _ _ _ p) by done. simpl.
      exists plain, [Callback socket (TransportParams (t_id transport))].
      eexists. split; [|split; [by eapply ch_transport|]]; [reflexivity|].
      repeat split; try done; by intros.
    + rewrite addTransport_unknown by done. simpl.
      exists orphan, [Callback socket (TransportParams (t_id transport))].
      eexists. split; [|split; [by eapply ch_transport_orphan|]];
        [reflexivity|].
      repeat split; try done. intros _. left. eauto 8.
  - (* await produce *)
    right. right. destruct engine as [id|]; [|unchanged (@nil Effect)].
    monad_unfold. simpl.
    destruct (peers st !! socket) as [p|] eqn:Hpeer; simpl;
      [|unchanged (@nil Effect)].
    rewrite (addProducer_joined _ _ _ p) by done.
    match goal with
    | |- context [informConsumers ?r ?s ?i ?st1] =>
        destruct (informConsumers_logs r s i st1) as [es Hes];
        destruct (informConsumers r s i st1) as [[] st2|st2];
        simpl in Hes; subst st2; simpl
    end.
    + exists plain. eexists _, _.
      split; [by rewrite (log_of_logs _ es)|].
      split; [by apply (ch_producer socket {| p_id := id; p_kind := kind |})|].
      repeat split; try done; by intros.
    + exists plain, es. eexists. split; [reflexivity|].
      split; [by apply (ch_producer socket {| p_id := id; p_kind := kind |})|].
      repeat split; try done; by intros.
  - (* await connect *)
    right. right. monad_unfold. destruct engine; unchanged (@nil Effect).
  - (* await consume *)
    right. right. monad_unfold.
    destruct engine as [consumer|];
      [|unchanged [Callback socket ConsumeError]].
    simpl. destruct (peers st !! socket) as [p|] eqn:Hpeer.
    + rewrite (addConsumer_joined _ _ _ p) by done. simpl.
      exists plain. eexists [_], _. split; [reflexivity|].
      split; [by eapply ch_consumer|]. repeat split; try done; by intros.
    + rewrite addConsumer_unknown by done. simpl.
      exists orphan. eexists [_], _. split; [reflexivity|].
      split; [by eapply ch_consumer_orphan|].
      repeat split; try done. intros _. right. eauto 8.
  - (* await startCombinedRecording *)
    right. right. monad_unfold.
    destruct recorder as [fileName|].
    + unchanged [Callback socket (RecordingStarted fileName)].
    + unchanged [Callback socket CaughtError].
Qed.

(** One event of the server. *)
Lemma async_step_cases sv ev :
  (∃ i socket roomName userName router1,
     ev = Resume i ∧
     suspended sv !! i = Some (at_createRoom socket roomName userName router1)
     ∧ current (async_step sv ev)
       = log (Callback socket (RtpCapabilities router1))
           (set_peers
              (<[socket := fresh_peer socket roomName userName]>
                 (peers (current sv))) (current sv)))
  ∨
  (∃ i socket roomName userName router1,
     ev = Resume i ∧
     suspended sv !! i
     = Some (at_createRouter socket roomName userName (Some router1)) ∧
     current (async_step sv ev)
     = set_rooms (<[roomName :=
         {| r_router := router1; r_peers := [socket] |}]>
         (rooms (current sv))) (current sv))
  ∨
  (∃ kind es st1,
     current (async_step sv ev) = logs es st1 ∧
     change kind (current sv) st1 ∧
     (kind = closing → ∃ s rp t c, ev = Start (ProducerClose s rp t c)) ∧
     (∀ s, kind = leaving s → ev = Start (Disconnect s)) ∧
     (kind = orphan → ∃ i,
        ev = Resume i ∧
        ((∃ socket roomName consumer transport,
            suspended sv !! i
            = Some (at_createWebRtcTransport socket roomName consumer
                      (Some transport))
            ∧ peers (current sv) !! socket = None) ∨
         (∃ socket roomName remoteProducerId consumer,
            suspended sv !! i
            = Some (at_consume socket roomName remoteProducerId
                      (Some consumer))
            ∧ peers (current sv) !! socket = None)))).
Proof.
  destruct ev as [op|i]; simpl.
  - right. right. rewrite current_settle.
    destruct (start_change op (current sv))
      as (kind & es & st1 & Hst & Hch & Hcl & Hor & Hlv).
    exists kind, es, st1. repeat split; try done.
    + intros Hk. destruct (Hcl Hk) as (s & rp & t & c & ->). eauto.
    + intros s Hk. by rewrite (Hlv s Hk).
  - destruct (suspended sv !! i) as [k|] eqn:Hk.
    + rewrite current_settle.
      destruct (resume_change k (current sv))
        as [(s & r & u & router1 & -> & Hst)
           |[(s & r & u & router1 & -> & Hst)
            |(kind & es & st1 & Hst & Hch & Hcl & Hlv & Hor)]].
      * left. eauto 10.
      * right. left. eauto 10.
      * right. right. exists kind, es, st1. repeat split; try done.
        -- intros s Hkind. by destruct (Hlv s).
        -- intros Hkind. exists i. split; [done|].
           destruct (Hor Hkind) as [(s & r & c & t & -> & Hp)
                                   |(s & r & rp & c & -> & Hp)]; eauto 10.
    + right. right. exists plain, [], (current sv).
      split; [by rewrite logs_nil|]. split; [constructor|].
      repeat split; try done; by intros.
Qed.

(** ** The two halves of consistency under interleaving *)






Lemma consistent_halves st :
  consistent st ↔ records_have_owners st ∧ ids_have_records st.
Proof.
  split.
  - intros [? ? ? ? ? ?]. by split.
  - intros [[? ? ?] [? ? ?]]. by split.
Qed.











(** A disconnect between the request of [createWebRtcTransport] and the
    answer of the engine: the continuation registers the transport of a
    socket that has no peer record any more, and throws. *)
Example disconnect_before_the_transport_is_there :
  let sv := async_run
    (promptly [JoinRoom "A" "room1" "alice" (Some "R1")] ++
     [ Start (CreateWebRtcTransport "A" false (Some {| t_id := "tA" |}));
       Start (Disconnect "A");
       Resume 0 ]) init_server in
  transports (current sv)
  = [{| td_socketId := "A"; td_transport := {| t_id := "tA" |};
        td_roomName := "room1"; td_consumer := false |}] ∧
  peers (current sv) !! "A" = None ∧
  suspended sv = [] ∧
  ¬ records_have_owners (current sv).
Proof.
  split; [vm_compute; reflexivity|]. split; [vm_compute; reflexivity|].
  split; [vm_compute; reflexivity|].
  intros [Hrt _ _].
  destruct (Hrt {| td_socketId := "A"; td_transport := {| t_id := "tA" |};
                   td_roomName := "room1"; td_consumer := false |})
    as (p & Hp & _).
  { vm_compute. by left. }
  vm_compute in Hp. discriminate Hp.
Qed.

(** ** The suspended handlers of [joinRoom] *)

Lemma suspended_settle k r others :
  k ∈ suspended (settle r others) →
  k ∈ others ∨ ∃ st', r = Ok (Some k) st'.
Proof.
  destruct r as [[k'|] st|st]; simpl; [|by left..].
  intros Hin. apply elem_of_app in Hin as [Hin|Hin]; [by left|].
  apply list_elem_of_singleton in Hin. subst k'. eauto.
Qed.

(** A [joinRoom] waits for a router only if it found its room
    unregistered. *)
Lemma async_step_router_awaited sv ev socket roomName userName engine :
  at_createRouter socket roomName userName engine
    ∈ suspended (async_step sv ev) →
  at_createRouter socket roomName userName engine ∈ suspended sv ∨
  rooms (current sv) !! roomName = None.
Proof.
  destruct ev as [op|i]; simpl.
  - intros Hin. apply suspended_settle in Hin as [Hin|[st' Hstart]];
      [by left|].
    apply start_Some in Hstart as [Hroom _]. by right.
  - destruct (suspended sv !! i) as [k|]; [|by left].
    intros Hin. apply suspended_settle in Hin as [Hin|[st' Hres]].
    + left. by eapply list_elem_of_delete_inv.
    + apply resume_Some in Hres as (? & ? & ? & ? & _ & Heq & _).
      discriminate Heq.
Qed.




(** ** What every interleaving keeps *)







(** ** A registered room under interleaving *)

(** Once a room is registered and no [joinRoom] that found it unregistered
    still waits for its router, one event keeps the room, its router and
    that condition; and unless the event is the disconnect of [socket], the
    member list holds [socket] at least as often as before. *)
Lemma async_step_room sv ev roomName rm socket :
  rooms (current sv) !! roomName = Some rm →
  no_router_awaited roomName sv →
  ∃ rm', rooms (current (async_step sv ev)) !! roomName = Some rm' ∧
         r_router rm' = r_router rm ∧
         no_router_awaited roomName (async_step sv ev) ∧
         (ev ≠ Start (Disconnect socket) →
          occurrences socket (r_peers rm) ≤ occurrences socket (r_peers rm')).
Proof.
  intros Hroom Hnone.
  assert (no_router_awaited roomName (async_step sv ev)) as Hnone'.
  { intros s u e Hin.
    apply async_step_router_awaited in Hin as [Hin|Hin].
    - by eapply Hnone.
    - by rewrite Hroom in Hin. }
  destruct (async_step_cases sv ev)
    as [(i & s & r & u & router1 & -> & Hk & ->)
       |[(i & s & r & u & router1 & -> & Hk & ->)
        |(kind & es & st1 & -> & Hch & _ & Hlv & _)]].
  - exists rm. simpl. repeat split; try done.
  - exists rm. simpl. repeat split; try done.
    rewrite lookup_insert_ne; [done|]. intros ->.
    eapply Hnone, list_elem_of_lookup_2, Hk.
  - change (rooms (logs es st1)) with (rooms st1).
    destruct Hch as
      [ st | s r rm0 st Hroom0
      | s r c t p st Hpeer | s r c t st Hpeer
      | s producer p st Hpeer
      | s r c p st Hpeer | s r c st Hpeer
      | t c st
      | s st Hpeer | s p st Hpeer Hroom0 | s p rm0 st Hpeer Hroom0 ]; simpl;
      try (exists rm; repeat split; done).
    + destruct (decide (r = roomName)) as [->|Hne].
      * rewrite lookup_insert_eq. eexists. repeat split; try done.
        -- simpl. congruence.
        -- intros _. simpl. rewrite occurrences_app.
           assert (rm0 = rm) as -> by congruence. lia.
      * rewrite lookup_insert_ne by done.
        exists rm. repeat split; done.
    + destruct (decide (pr_roomName p = roomName)) as [Heq|Hne].
      * rewrite Heq, lookup_insert_eq. eexists. repeat split; try done.
        -- simpl. congruence.
        -- intros Hev. simpl. assert (rm0 = rm) as -> by congruence.
           rewrite occurrences_filter_other; [done|].
           intros ->. apply Hev. by apply Hlv.
      * rewrite lookup_insert_ne by done.
        exists rm. repeat split; done.
Qed.

Lemma async_run_room evs sv roomName rm socket :
  rooms (current sv) !! roomName = Some rm →
  no_router_awaited roomName sv →
  ∃ rm', rooms (current (async_run evs sv)) !! roomName = Some rm' ∧
         r_router rm' = r_router rm ∧
         no_router_awaited roomName (async_run evs sv) ∧
         (Start (Disconnect socket) ∉ evs →
          occurrences socket (r_peers rm) ≤ occurrences socket (r_peers rm')).
Proof.
  revert sv rm. induction evs as [|ev evs IH]; intros sv rm Hroom Hnone.
  - exists rm. by repeat split.
  - destruct (async_step_room sv ev roomName rm socket Hroom Hnone)
      as (rm1 & Hroom1 & Hrouter1 & Hnone1 & Hocc1).
    destruct (IH (async_step sv ev) rm1 Hroom1 Hnone1)
      as (rm2 & Hroom2 & Hrouter2 & Hnone2 & Hocc2).
    exists rm2. simpl. repeat split; try done; [congruence|].
    intros Hnot.
    assert (ev ≠ Start (Disconnect socket)) as Hev
      by (intros ->; apply Hnot; by left).
    assert (Start (Disconnect socket) ∉ evs) as Hevs
      by (intros Hin; apply Hnot; by right).
    specialize (Hocc1 Hev). specialize (Hocc2 Hevs). lia.
Qed.

Lemma occurrences_member socket l : socket ∈ l → 1 ≤ occurrences socket l.
Proof.
  intros Hin. unfold occurrences.
  assert (socket ∈ filter (λ id, id = socket) l) as Hf
    by (by apply list_elem_of_filter).
  destruct (filter _ l); [by apply elem_of_nil in Hf | simpl; lia].
Qed.

(** C2, as the code has it, with the handlers interleaved at their awaits.
    [createRoom] never tests whether the socket is already a member.  Once
    a socket is in the member list of a room, and no [joinRoom] that found
    the room unregistered still waits for its router, then after any
    events of the server other than that socket's disconnect, a
    [joinRoom] of the socket for the room appends the socket once more, at
    its very first step: the socket is then at least twice in the list. *)
Theorem rejoin_duplicates_member :
  ∀ (sv : Server) (evs : list Event) (socket : SocketId)
    (roomName : RoomName) (userName : string) (engine : option Router),
    socket ∈ members (current sv) roomName →
    no_router_awaited roomName sv →
    Start (Disconnect socket) ∉ evs →
    let sv1 := async_run evs sv in
    let sv2 := async_step sv1 (Start (JoinRoom socket roomName userName engine)) in
    members (current sv2) roomName = members (current sv1) roomName ++ [socket] ∧
    2 ≤ occurrences socket (members (current sv2) roomName).
Proof.
  intros sv evs socket roomName userName engine Hin Hnone Hevs sv1 sv2.
  unfold members in Hin.
  destruct (rooms (current sv) !! roomName) as [rm|] eqn:Hroom;
    [|by apply elem_of_nil in Hin].
  simpl in Hin.
  destruct (async_run_room evs sv roomName rm socket Hroom Hnone)
    as (rm1 & Hroom1 & _ & _ & Hocc).
  specialize (Hocc Hevs). apply occurrences_member in Hin.
  assert (members (current sv2) roomName = r_peers rm1 ++ [socket]) as Hsv2.
  { unfold sv2, sv1, members. simpl. rewrite current_settle.
    monad_unfold. rewrite Hroom1. simpl.
    by rewrite lookup_insert_eq. }
  rewrite Hsv2. unfold sv1, members at 1. rewrite Hroom1. simpl.
  split; [done|]. rewrite occurrences_app.
  assert (occurrences socket [socket] = 1) as ->
    by (unfold occurrences; by rewrite filter_cons, decide_True).
  lia.
Qed.

Lemma rejoin_duplicates_member_witness :
  let sv := async_run
    [ Start (JoinRoom "A" "room1" "alice" (Some "R1")); Resume 0; Resume 0 ]
    init_server in
  let evs := [ Start (JoinRoom "B" "room1" "bob" None); Resume 0;
               Start (CreateWebRtcTransport "A" false
                        (Some {| t_id := "tA" |}));
               Start (Disconnect "B");
               Resume 0 ] in
  let sv1 := async_run evs sv in
  let sv2 := async_step sv1 (Start (JoinRoom "A" "room1" "alice" None)) in
  "A" ∈ members (current sv) "room1" ∧
  members (current sv2) "room1" = members (current sv1) "room1" ++ ["A"] ∧
  2 ≤ occurrences "A" (members (current sv2) "room1").
Proof.
  split; [vm_compute; by left|].
  apply (rejoin_duplicates_member _ _ "A" "room1" "alice" None).
  - vm_compute. by left.
  - intros s u e Hin. vm_compute in Hin. by apply elem_of_nil in Hin.
  - intros Hin.
    repeat (apply elem_of_cons in Hin as [Hin|Hin]; [discriminate Hin|]).
    by apply elem_of_nil in Hin.
Defined.

(** Why the condition on waiting [joinRoom]s is there: two first joins of
    one room that overlap at [worker.createRouter] both find the room
    unregistered, and the second to go on replaces the room that the first
    one wrote.  A is then no member of the room that its peer record names,
    and was answered with the capabilities of a router that the room does
    not have. *)
Example overlapping_first_joins_replace_the_room :
  let sv := async_run
    [ Start (JoinRoom "A" "room1" "alice" (Some "R1"));
      Start (JoinRoom "B" "room1" "bob" (Some "R2"));
      Resume 0; Resume 1; Resume 0; Resume 0 ] init_server in
  suspended sv = [] ∧
  rooms (current sv) !! "room1"
  = Some {| r_router := "R2"; r_peers := ["B"] |} ∧
  pr_roomName <$> peers (current sv) !! "A" = Some "room1" ∧
  sent init (current sv)
  = [ Callback "A" (RtpCapabilities "R1");
      Callback "B" (RtpCapabilities "R2") ].
Proof. vm_compute. by repeat split. Qed.

(** X4.  However the handlers are interleaved at their awaits: once a room
    is registered and no [joinRoom] that found it unregistered still waits
    for its router, the room stays registered with the same router through
    any later events, the disconnect of its last member included; and a
    [joinRoom] for it that starts then does not ask the engine: it waits at
    [await createRoom(..)] with that router, and when it goes on, whatever
    has happened meanwhile, it files the peer record and answers with that
    router's capabilities. *)
Theorem registered_room_keeps_its_router :
  ∀ (sv : Server) (evs : list Event) (roomName : RoomName) (rm : Room),
    rooms (current sv) !! roomName = Some rm →
    no_router_awaited roomName sv →
    let sv' := async_run evs sv in
    (∃ rm', rooms (current sv') !! roomName = Some rm' ∧
            r_router rm' = r_router rm) ∧
    no_router_awaited roomName sv' ∧
    ∀ socket userName engine,
      let k := at_createRoom socket roomName userName (r_router rm) in
      (∃ st1, start (JoinRoom socket roomName userName engine) (current sv')
              = Ok (Some k) st1) ∧
      ∀ st2, resume k st2
             = Ok None
                 (log (Callback socket (RtpCapabilities (r_router rm)))
                    (set_peers
                       (<[socket := fresh_peer socket roomName userName]>
                          (peers st2)) st2)).
Proof.
  intros sv evs roomName rm Hroom Hnone. cbv zeta.
  destruct (async_run_room evs sv roomName rm "" Hroom Hnone)
    as (rm' & Hroom' & Hrouter & Hnone' & _).
  split; [by eauto|]. split; [done|].
  intros socket userName engine. split; [|done].
  simpl. monad_unfold. rewrite Hroom', Hrouter.
  by eexists.
Qed.

Lemma registered_room_keeps_its_router_witness :
  let sv := async_run
    [ Start (JoinRoom "A" "room1" "alice" (Some "R1")); Resume 0; Resume 0 ]
    init_server in
  let sv' := async_run
    [ Start (CreateWebRtcTransport "A" false (Some {| t_id := "tA" |}));
      Start (Disconnect "A");
      Resume 0 ] sv in
  rooms (current sv') !! "room1" = Some {| r_router := "R1"; r_peers := [] |} ∧
  ∃ st1, start (JoinRoom "B" "room1" "bob" None) (current sv')
         = Ok (Some (at_createRoom "B" "room1" "bob" "R1")) st1.
Proof.
  split; [by vm_compute|].
  refine (proj1 (proj2 (proj2 (registered_room_keeps_its_router
    (async_run
       [ Start (JoinRoom "A" "room1" "alice" (Some "R1")); Resume 0; Resume 0 ]
       init_server)
    [ Start (CreateWebRtcTransport "A" false (Some {| t_id := "tA" |}));
      Start (Disconnect "A");
      Resume 0 ]
    "room1" {| r_router := "R1"; r_peers := ["A"] |} _ _)) "B" "bob" None)).
  - by vm_compute.
  - intros s u e Hin. vm_compute in Hin. by apply elem_of_nil in Hin.
Defined.
